(** * cacheback: the [Job] read-through cache of [cacheback/base.py]

    A shallow embedding of [cacheback.base]: the helper [to_bytestring], the
    key builder ([Job.key], [Job.hash]), the read path ([Job.get]), the write
    path ([Job.refresh], [Job.cache_set]), the mutation path
    ([Job.invalidate], [Job.delete]) and the dispatch adapter
    ([Job.async_refresh]).

    Conventions of the embedding.
    - Python values are the inductive [pyval]; text is ASCII, so that
      encoding to UTF-8 keeps the bytes.
    - [time.time()] reads the field [now] of the environment; the clock does
      not advance inside one call, and time stamps (Python floats) are exact
      integers of seconds.
    - The interpreter is Python 3 ([six.PY2] is false), version 3.5 or 3.6:
      the module uses [async] as a parameter name.  The texts of the
      exceptions are those of that interpreter.
    - A keyword dictionary is one that a method received as [**kwargs]: it
      holds no key [self].  A call that passes it on next to named
      parameters raises [TypeError] when a key has the name of one of them.
    - Values are nested below the recursion limit of the interpreter, so
      that [repr] does not raise [RecursionError].
    - Exceptions are the subclasses of [Exception]; a method that can raise
      returns in the monad [M], whose state survives the exception.
    - The cache backend keeps what it is given: a [cache.get] after a
      [cache.set] returns the stored value.  Its eviction by TTL is outside
      the model; the TTL of each write is recorded next to the value. *)

From Stdlib Require Import ZArith List String Ascii Lia Permutation DecimalString.
From stdpp Require Import gmap strings list fin_maps.
Import ListNotations.

Local Open Scope string_scope.
Local Open Scope Z_scope.

(* ===================================================================== *)
(** ** [hashlib.md5]: the MD5 digest of RFC 1321

    [Job.hash] calls [hashlib.md5(...).hexdigest()].  Words are 32-bit
    integers in [Z] with the wrap-around written out. *)
(* ===================================================================== *)

Module MD5.

Definition w32 (x : Z) : Z := x mod 2 ^ 32.

Definition not32 (x : Z) : Z := Z.lxor x 0xffffffff.

Definition rotl (x c : Z) : Z :=
  w32 (Z.lor (Z.shiftl x c) (Z.shiftr x (32 - c))).

(** Per-round shift amounts. *)
Definition S : list Z :=
  [7; 12; 17; 22; 7; 12; 17; 22; 7; 12; 17; 22; 7; 12; 17; 22;
   5; 9; 14; 20; 5; 9; 14; 20; 5; 9; 14; 20; 5; 9; 14; 20;
   4; 11; 16; 23; 4; 11; 16; 23; 4; 11; 16; 23; 4; 11; 16; 23;
   6; 10; 15; 21; 6; 10; 15; 21; 6; 10; 15; 21; 6; 10; 15; 21].

(** [K[i] = floor (2^32 * abs (sin (i + 1)))]. *)
Definition K : list Z :=
  [0xd76aa478; 0xe8c7b756; 0x242070db; 0xc1bdceee;
   0xf57c0faf; 0x4787c62a; 0xa8304613; 0xfd469501;
   0x698098d8; 0x8b44f7af; 0xffff5bb1; 0x895cd7be;
   0x6b901122; 0xfd987193; 0xa679438e; 0x49b40821;
   0xf61e2562; 0xc040b340; 0x265e5a51; 0xe9b6c7aa;
   0xd62f105d; 0x02441453; 0xd8a1e681; 0xe7d3fbc8;
   0x21e1cde6; 0xc33707d6; 0xf4d50d87; 0x455a14ed;
   0xa9e3e905; 0xfcefa3f8; 0x676f02d9; 0x8d2a4c8a;
   0xfffa3942; 0x8771f681; 0x6d9d6122; 0xfde5380c;
   0xa4beea44; 0x4bdecfa9; 0xf6bb4b60; 0xbebfbc70;
   0x289b7ec6; 0xeaa127fa; 0xd4ef3085; 0x04881d05;
   0xd9d4d039; 0xe6db99e5; 0x1fa27cf8; 0xc4ac5665;
   0xf4292244; 0x432aff97; 0xab9423a7; 0xfc93a039;
   0x655b59c3; 0x8f0ccc92; 0xffeff47d; 0x85845dd1;
   0x6fa87e4f; 0xfe2ce6e0; 0xa3014314; 0x4e0811a1;
   0xf7537e82; 0xbd3af235; 0x2ad7d2bb; 0xeb86d391].

Definition nthZ (l : list Z) (i : Z) : Z := nth (Z.to_nat i) l 0.

Record state := State { sa : Z; sb : Z; sc : Z; sd : Z }.

Definition init : state :=
  State 0x67452301 0xefcdab89 0x98badcfe 0x10325476.

(** One of the 64 operations on the block [m] (sixteen words). *)
Definition step (m : list Z) (st : state) (i : Z) : state :=
  let '(State a b c d) := st in
  let '(f, g) :=
    if i <? 16 then (Z.lor (Z.land b c) (Z.land (not32 b) d), i)
    else if i <? 32 then
      (Z.lor (Z.land d b) (Z.land (not32 d) c), (5 * i + 1) mod 16)
    else if i <? 48 then (Z.lxor b (Z.lxor c d), (3 * i + 5) mod 16)
    else (Z.lxor c (Z.lor b (not32 d)), (7 * i) mod 16) in
  let f' := w32 (f + a + nthZ K i + nthZ m g) in
  State d (w32 (b + rotl f' (nthZ S i))) b c.

Definition rounds : list Z := map Z.of_nat (seq 0 64).

Definition compress (st : state) (m : list Z) : state :=
  let '(State a b c d) := fold_left (step m) rounds st in
  State (w32 (sa st + a)) (w32 (sb st + b))
        (w32 (sc st + c)) (w32 (sd st + d)).

(** Little-endian bytes of a word and back. *)
Fixpoint le_bytes (n : nat) (x : Z) : list Z :=
  match n with
  | O => []
  | Datatypes.S n' => (x mod 256) :: le_bytes n' (x / 256)
  end.

Fixpoint le_word (bs : list Z) : Z :=
  match bs with
  | [] => 0
  | b :: bs' => b + 256 * le_word bs'
  end.

(** The message, one [0x80] byte, zero bytes up to 56 modulo 64, and the
    length in bits on eight bytes. *)
Definition pad (msg : list Z) : list Z :=
  let len := Z.of_nat (List.length msg) in
  let zeros := Z.to_nat ((55 - len) mod 64) in
  msg ++ [0x80] ++ repeat 0 zeros ++ le_bytes 8 (8 * len).

Fixpoint chunks {A} (fuel n : nat) (l : list A) : list (list A) :=
  match fuel with
  | O => []
  | Datatypes.S fuel' =>
      match l with
      | [] => []
      | _ => firstn n l :: chunks fuel' n (skipn n l)
      end
  end.

Definition words (block : list Z) : list Z :=
  map le_word (chunks 16 4 block).

Definition digest (msg : list Z) : list Z :=
  let p := pad msg in
  let blocks := chunks (List.length p) 64 p in
  let '(State a b c d) := fold_left compress (map words blocks) init in
  le_bytes 4 a ++ le_bytes 4 b ++ le_bytes 4 c ++ le_bytes 4 d.

Definition hex_digit (x : Z) : ascii :=
  if x <? 10 then ascii_of_nat (Z.to_nat (48 + x))
  else ascii_of_nat (Z.to_nat (87 + x)).

Fixpoint hex (bs : list Z) : string :=
  match bs with
  | [] => EmptyString
  | b :: bs' => String (hex_digit (b / 16)) (String (hex_digit (b mod 16)) (hex bs'))
  end.

Definition bytes_of_string (s : string) : list Z :=
  map (fun c => Z.of_nat (nat_of_ascii c)) (list_ascii_of_string s).

(** [hashlib.md5(b).hexdigest()]. *)
Definition hexdigest (b : string) : string := hex (digest (bytes_of_string b)).

End MD5.

(* ===================================================================== *)
(** ** Python values, exceptions and the builtins the module uses *)
(* ===================================================================== *)

(** The exceptions of the module, all subclasses of [Exception]. *)
Inductive exn : Type :=
| TypeError (msg : string)
| ValueError (msg : string)
| NameError (msg : string)
| RuntimeError (msg : string)
| NotImplementedError
| OtherException (cls msg : string).

(** The outcome of a call that has no effect on the cache. *)
Inductive result (A : Type) : Type :=
| Ok (a : A)
| Raise (e : exn).
Arguments Ok {A} a.
Arguments Raise {A} e.

Set Warnings "-register-all".

(** Python values.  [PObj cls r] is an instance of a user class [cls] whose
    [__repr__] (and [__str__]) gives [r]: a string, or an exception. *)
Inductive pyval : Type :=
| PNone
| PBool (b : bool)
| PInt (z : Z)
| PStr (s : string)
| PBytes (b : string)
| PTuple (l : list pyval)
| PList (l : list pyval)
| PObj (cls : string) (r : result string).

Definition kwargs_t : Type := list (string * pyval).

(** [hash(v)] of Python succeeds: lists are unhashable, a tuple is hashable
    when its items are. *)
Fixpoint py_hashable (v : pyval) : bool :=
  match v with
  | PList _ => false
  | PTuple l => forallb py_hashable l
  | _ => true
  end.

Definition dquote : ascii := ascii_of_nat 34.
Definition squote : ascii := ascii_of_nat 39.
Definition backslash : ascii := ascii_of_nat 92.

Definition str1 (c : ascii) : string := String c EmptyString.

Definition hex2 (n : nat) : string :=
  String (MD5.hex_digit (Z.of_nat n / 16))
         (String (MD5.hex_digit (Z.of_nat n mod 16)) EmptyString).

Fixpoint contains (c : ascii) (s : string) : bool :=
  match s with
  | EmptyString => false
  | String c' s' => if Ascii.eqb c c' then true else contains c s'
  end.

(** The quote [repr] encloses a string in: double quotes when the string
    holds a single quote and no double quote, single quotes otherwise. *)
Definition repr_quote (s : string) : ascii :=
  if contains squote s && negb (contains dquote s) then dquote else squote.

(** One character inside the quotes.  Text is ASCII: the codes from 128 on
    occur in bytes only, where [repr] escapes them. *)
Definition repr_char (q c : ascii) : string :=
  let n := nat_of_ascii c in
  if Ascii.eqb c q || Ascii.eqb c backslash then String backslash (str1 c)
  else if Nat.eqb n 9 then String backslash "t"
  else if Nat.eqb n 10 then String backslash "n"
  else if Nat.eqb n 13 then String backslash "r"
  else if Nat.ltb n 32 || Nat.leb 127 n then String backslash ("x" +:+ hex2 n)
  else str1 c.

Fixpoint repr_chars (q : ascii) (s : string) : string :=
  match s with
  | EmptyString => EmptyString
  | String c s' => repr_char q c +:+ repr_chars q s'
  end.

Definition repr_text (s : string) : string :=
  let q := repr_quote s in
  str1 q +:+ repr_chars q s +:+ str1 q.

Definition repr_int (z : Z) : string := NilZero.string_of_int (Z.to_int z).

(** [f] on the items of a list from left to right; the first exception
    ends the call. *)
Fixpoint map_result {A B} (f : A -> result B) (l : list A) : result (list B) :=
  match l with
  | [] => Ok []
  | x :: l' =>
      match f x with
      | Raise e => Raise e
      | Ok y =>
          match map_result f l' with
          | Raise e => Raise e
          | Ok ys => Ok (y :: ys)
          end
      end
  end.

(** [repr(v)]. *)
Fixpoint py_repr (v : pyval) : result string :=
  match v with
  | PNone => Ok "None"
  | PBool true => Ok "True"
  | PBool false => Ok "False"
  | PInt z => Ok (repr_int z)
  | PStr s => Ok (repr_text s)
  | PBytes b => Ok ("b" +:+ repr_text b)
  | PTuple l =>
      match map_result py_repr l with
      | Raise e => Raise e
      | Ok [s] => Ok ("(" +:+ s +:+ ",)")
      | Ok ss => Ok ("(" +:+ String.concat ", " ss +:+ ")")
      end
  | PList l =>
      match map_result py_repr l with
      | Raise e => Raise e
      | Ok ss => Ok ("[" +:+ String.concat ", " ss +:+ "]")
      end
  | PObj _ r => r
  end.

(** [str(v)]: the text itself for a string, [repr] for the rest. *)
Definition py_str (v : pyval) : result string :=
  match v with
  | PStr s => Ok s
  | _ => py_repr v
  end.

(** [type(v).__name__]. *)
Definition type_name (v : pyval) : string :=
  match v with
  | PNone => "NoneType"
  | PBool _ => "bool"
  | PInt _ => "int"
  | PStr _ => "str"
  | PBytes _ => "bytes"
  | PTuple _ => "tuple"
  | PList _ => "list"
  | PObj cls _ => cls
  end.

(** [type(v)] as [%s] prints it. *)
Definition py_type (v : pyval) : string :=
  "<class '" +:+ type_name v +:+ "'>".

(** The truth value of a sequence: [not args] holds for the empty one. *)
Definition is_empty {A} (l : list A) : bool :=
  match l with [] => true | _ => false end.

(** [six.PY2]. *)
Definition PY2 : bool := false.

(** [to_bytestring(value)].  The first branch names [string], which the
    module never binds: a text value raises [NameError]. *)
Definition to_bytestring (value : pyval) : result string :=
  match value with
  | PStr _ => Raise (NameError "name 'string' is not defined")
  | PBytes b => Ok b
  | _ => if PY2 then py_str value else py_str value
  end.

(* ===================================================================== *)
(** ** The job, its environment and the backing store *)
(* ===================================================================== *)

Definition MEMCACHE_MAX_EXPIRATION : Z := 2592000.

(** The class attributes of a [Job] subclass, and the one method a subclass
    has to supply: [fetch]. *)
Record Job : Type := {
  class_path : string;
  lifetime : Z;
  refresh_timeout : Z;
  cache_ttl : Z;
  fetch_on_miss : bool;
  fetch_on_stale_threshold : option Z;
  task_options : kwargs_t;
  fetch : list pyval -> kwargs_t -> result pyval
}.

(** [Job.fetch] of the base class. *)
Definition base_fetch (args : list pyval) (kwargs : kwargs_t) : result pyval :=
  Raise NotImplementedError.

(** The attributes as the class [Job] sets them, with [fetch] overridden. *)
Definition default_job (path : string)
    (f : list pyval -> kwargs_t -> result pyval) : Job :=
  {| class_path := path;
     lifetime := 600;
     refresh_timeout := 60;
     cache_ttl := MEMCACHE_MAX_EXPIRATION;
     fetch_on_miss := true;
     fetch_on_stale_threshold := None;
     task_options := [];
     fetch := f |}.

(** The keyword arguments handed to [tasks.refresh_cache.apply_async]. *)
Record task : Type := {
  klass_str : string;
  obj_args : list pyval;
  obj_kwargs : kwargs_t;
  call_args : list pyval;
  call_kwargs : kwargs_t;
  options : kwargs_t
}.

(** What does not change during a call: the clock, the task queue's answer
    to a submission ([None]: accepted) and the Django setting. *)
Record Env : Type := {
  now : Z;
  apply_async : task -> option exn;
  CACHEBACK_VERIFY_CACHE_WRITE : bool
}.

Inductive level : Type := DEBUG | ERROR.

(** The log messages of the module, by the place that writes them. *)
Inductive log_msg : Type :=
| MissSync
| MissAsync
| StaleSync
| StaleAsync
| Hit (status : pyval)
| DispatchFailed
| SyncRefreshFailed (e : exn).

(** What a call does to the outside, besides the cache. *)
Inductive event : Type :=
| ELog (l : level) (m : log_msg)
| EDispatch (t : task)
| EFetch (args : list pyval) (kwargs : kwargs_t).

(** The cache (key to value and TTL) and the events so far, newest first. *)
Record World : Type := {
  store : gmap string (pyval * Z);
  trace : list event
}.

Definition empty_world : World := {| store := ∅; trace := [] |}.

(** State and exceptions: the state is kept when an exception is raised. *)
Definition M (A : Type) : Type := World -> result A * World.

Definition ret {A} (a : A) : M A := fun w => (Ok a, w).

Definition raise {A} (e : exn) : M A := fun w => (Raise e, w).

Definition bind {A B} (m : M A) (k : A -> M B) : M B :=
  fun w =>
    match m w with
    | (Ok a, w') => k a w'
    | (Raise e, w') => (Raise e, w')
    end.

(** [try: m except Exception as e: h e]. *)
Definition try_except {A} (m : M A) (h : exn -> M A) : M A :=
  fun w =>
    match m w with
    | (Ok a, w') => (Ok a, w')
    | (Raise e, w') => h e w'
    end.

Definition lift {A} (r : result A) : M A := fun w => (r, w).

Definition emit (e : event) : M unit :=
  fun w => (Ok tt, {| store := store w; trace := e :: trace w |}).

Notation "x <- m ;; k" := (bind m (fun x => k))
  (at level 100, m at next level, right associativity).
Notation "'let*' p := m 'in' k" := (bind m (fun p => k))
  (at level 100, p pattern, m at next level, right associativity).
Notation "m ;;; k" := (bind m (fun _ => k))
  (at level 100, right associativity).

(** [self.cache.get(key, default)]. *)
Definition cache_get (key : string) (default : pyval) : M pyval :=
  fun w =>
    (Ok match store w !! key with
        | Some (v, _) => v
        | None => default
        end, w).

(** [self.cache.set(key, value, timeout)]. *)
Definition cache_put (key : string) (value : pyval) (timeout : Z) : M unit :=
  fun w => (Ok tt, {| store := <[key := (value, timeout)]> (store w);
                      trace := trace w |}).

(** [self.cache.delete(key)]. *)
Definition cache_delete (key : string) : M unit :=
  fun w => (Ok tt, {| store := base.delete key (store w); trace := trace w |}).

(** The items of an iterable, for tuple unpacking; [None] when the value
    cannot be iterated. *)
Definition py_iter (v : pyval) : option (list pyval) :=
  match v with
  | PTuple l | PList l => Some l
  | PStr s => Some (map (fun c => PStr (str1 c)) (list_ascii_of_string s))
  | PBytes b => Some (map (fun c => PInt (Z.of_nat (nat_of_ascii c)))
                          (list_ascii_of_string b))
  | _ => None
  end.

Definition not_iterable (v : pyval) : exn :=
  TypeError ("'" +:+ type_name v +:+ "' object is not iterable").

(** The text of [ValueError] for a sequence shorter than the targets. *)
Definition not_enough (expected : Z) (items : list pyval) : exn :=
  ValueError ("not enough values to unpack (expected " +:+ repr_int expected
              +:+ ", got " +:+ repr_int (Z.of_nat (List.length items)) +:+ ")").

(** [a, b, c = item]. *)
Definition unpack3 (item : pyval) : result (pyval * pyval * pyval) :=
  match py_iter item with
  | None => Raise (not_iterable item)
  | Some [a; b; c] => Ok (a, b, c)
  | Some (_ :: _ :: _ :: _ :: _) =>
      Raise (ValueError "too many values to unpack (expected 3)")
  | Some l => Raise (not_enough 3 l)
  end.

(** [a, b = item]. *)
Definition unpack2 (item : pyval) : result (pyval * pyval) :=
  match py_iter item with
  | None => Raise (not_iterable item)
  | Some [a; b] => Ok (a, b)
  | Some (_ :: _ :: _ :: _) =>
      Raise (ValueError "too many values to unpack (expected 2)")
  | Some l => Raise (not_enough 2 l)
  end.

(** [time.time() - expiry]: the stored expiry has to be a number. *)
Definition time_minus (t : Z) (expiry : pyval) : result Z :=
  match expiry with
  | PInt e => Ok (t - e)
  | PBool b => Ok (t - (if b then 1 else 0))
  | _ => Raise (TypeError ("unsupported operand type(s) for -: 'float' and '"
                           +:+ type_name expiry +:+ "'"))
  end.

(* ===================================================================== *)
(** ** The methods of [Job] *)
(* ===================================================================== *)

Definition is_none (v : pyval) : bool :=
  match v with PNone => true | _ => false end.

(** The first key of a keyword dictionary, in its iteration order, that has
    the name of one of the parameters [params]. *)
Fixpoint clash (params : list string) (kwargs : kwargs_t) : option string :=
  match kwargs with
  | [] => None
  | (name, _) :: kwargs' =>
      if existsb (String.eqb name) params then Some name
      else clash params kwargs'
  end.

(** The call [f(p1, ..., pn, *args, **kwargs)] of a method whose named
    parameters [params] are all given by position: a key of [kwargs] that
    names one of them is a second value for it. *)
Definition bind_keywords (f : string) (params : list string) (kwargs : kwargs_t)
  : result unit :=
  match clash params kwargs with
  | Some name =>
      Raise (TypeError (f +:+ "() got multiple values for argument '"
                        +:+ name +:+ "'"))
  | None => Ok tt
  end.

Definition prepare_args (args : list pyval) : list pyval := args.

Definition prepare_kwargs (kwargs : kwargs_t) : kwargs_t := kwargs.

Definition get_constructor_args (job : Job) : list pyval := [].

Definition get_constructor_kwargs (job : Job) : kwargs_t := [].

Definition empty (job : Job) : pyval := PNone.

Definition expiry (job : Job) (env : Env) : Z := now env + lifetime job.

Definition timeout (job : Job) (env : Env) : Z := now env + refresh_timeout job.

Definition should_missing_item_be_fetched_synchronously (job : Job) : bool :=
  fetch_on_miss job.

(** [should_stale_item_be_fetched_synchronously(self, delta, *args,
    **kwargs)]. *)
Definition should_stale_item_be_fetched_synchronously (job : Job) (delta : Z)
    (kwargs : kwargs_t) : result bool :=
  match bind_keywords "should_stale_item_be_fetched_synchronously"
                      ["delta"] kwargs with
  | Raise e => Raise e
  | Ok _ =>
      match fetch_on_stale_threshold job with
      | None => Ok false
      | Some threshold => Ok (delta >? threshold - lifetime job)
      end
  end.

(** [Job.hash]: the MD5 hex digest of the value's byte string. *)
Definition hash (value : pyval) : result string :=
  match to_bytestring value with
  | Ok b => Ok (MD5.hexdigest b)
  | Raise e => Raise e
  end.

(** The message of [Job.key]'s [RuntimeError]: three adjacent literals,
    glued as Python glues them. *)
Definition key_error_message : string :=
  "Unable to generate cache key due to unhashable" +:+
  "args or kwargs - you need to implement your own" +:+
  "key generation method to avoid this problem".

(** The body of the [try] in [Job.key]. *)
Definition key_body (job : Job) (args : list pyval) (kwargs : kwargs_t)
  : result string :=
  if negb (is_empty args) && is_empty kwargs then
    match hash (PTuple args) with
    | Raise e => Raise e
    | Ok h => Ok (class_path job +:+ ":" +:+ h)
    end
  else
    match hash (PTuple args) with
    | Raise e => Raise e
    | Ok ha =>
        match hash (PTuple (map (fun kv => PStr (fst kv)) kwargs)) with
        | Raise e => Raise e
        | Ok hk =>
            match hash (PTuple (map snd kwargs)) with
            | Raise e => Raise e
            | Ok hv =>
                Ok (class_path job +:+ ":" +:+ ha +:+ ":" +:+ hk +:+ ":" +:+ hv)
            end
        end
    end.

(** [Job.key]: [kwargs] is the dictionary in the order its items are
    iterated.  Only a [TypeError] is turned into the [RuntimeError]. *)
Definition key (job : Job) (args : list pyval) (kwargs : kwargs_t)
  : result string :=
  if is_empty args && is_empty kwargs then Ok (class_path job)
  else
    match key_body job args kwargs with
    | Raise (TypeError _) => Raise (RuntimeError key_error_message)
    | r => r
    end.

(** [got_miss(self, fetched, async, *raw_args, **raw_kwargs)]. *)
Definition got_miss (fetched : pyval) (async : bool)
    (raw_args : list pyval) (raw_kwargs : kwargs_t) : result pyval :=
  match bind_keywords "got_miss" ["fetched"; "async"] raw_kwargs with
  | Raise e => Raise e
  | Ok _ => Ok fetched
  end.

(** [got_hit(self, fetched, status, *raw_args, **raw_kwargs)]. *)
Definition got_hit (fetched status : pyval)
    (raw_args : list pyval) (raw_kwargs : kwargs_t) : result pyval :=
  match bind_keywords "got_hit" ["fetched"; "status"] raw_kwargs with
  | Raise e => Raise e
  | Ok _ => Ok fetched
  end.

(** [got_stale(self, fetched, async, *raw_args, **raw_kwargs)]. *)
Definition got_stale (fetched : pyval) (async : bool)
    (raw_args : list pyval) (raw_kwargs : kwargs_t) : result pyval :=
  match bind_keywords "got_stale" ["fetched"; "async"] raw_kwargs with
  | Raise e => Raise e
  | Ok _ => Ok fetched
  end.

(** [Job.cache_set(key, expiry, status, data)]: the stored tuple is
    [(expiry, status, data)]; the check reads its third item back. *)
Definition cache_set (job : Job) (env : Env)
    (key : string) (expiry : Z) (status data : pyval) : M unit :=
  cache_put key (PTuple [PInt expiry; status; data]) (cache_ttl job) ;;;
  if CACHEBACK_VERIFY_CACHE_WRITE env then
    item <- cache_get key (PTuple [PNone; PNone; PNone]) ;;
    let* (_, _, cached_data) := lift (unpack3 item) in
    if negb (is_none data) && is_none cached_data then
      raise (RuntimeError
               ("Unable to save data of type " +:+ py_type data +:+ " to cache"))
    else ret tt
  else ret tt.

(** [Job.refresh]: fetch, then store as [FRESH] until [expiry]. *)
Definition refresh (job : Job) (env : Env)
    (args : list pyval) (kwargs : kwargs_t) : M pyval :=
  emit (EFetch args kwargs) ;;;
  result <- lift (fetch job args kwargs) ;;
  k <- lift (key job args kwargs) ;;
  cache_set job env k (expiry job env) (PStr "FRESH") result ;;;
  ret result.

Definition refresh_task (job : Job) (args : list pyval) (kwargs : kwargs_t)
  : task :=
  {| klass_str := class_path job;
     obj_args := get_constructor_args job;
     obj_kwargs := get_constructor_kwargs job;
     call_args := args;
     call_kwargs := kwargs;
     options := task_options job |}.

(** [tasks.refresh_cache.apply_async(kwargs=dict(...), **self.task_options)]:
    the answer of the environment stands for the outcome of the whole call,
    the binding of its keywords included. *)
Definition dispatch (env : Env) (t : task) : M unit :=
  emit (EDispatch t) ;;;
  match apply_async env t with
  | None => ret tt
  | Some e => raise e
  end.

(** [Job.async_refresh].  The [else] branch of the inner [try] is never
    run, since its body leaves by [return]; the method gives [None] unless
    the synchronous refresh gave a result. *)
Definition async_refresh (job : Job) (env : Env)
    (args : list pyval) (kwargs : kwargs_t) : M pyval :=
  try_except
    (dispatch env (refresh_task job args kwargs) ;;; ret PNone)
    (fun _ =>
       emit (ELog ERROR DispatchFailed) ;;;
       try_except
         (refresh job env args kwargs)
         (fun e => emit (ELog ERROR (SyncRefreshFailed e)) ;;; ret PNone)).

(** [Job.get]. *)
Definition get (job : Job) (env : Env)
    (raw_args : list pyval) (raw_kwargs : kwargs_t) : M pyval :=
  let args := prepare_args raw_args in
  let kwargs := prepare_kwargs raw_kwargs in
  k <- lift (key job args kwargs) ;;
  item <- cache_get k PNone ;;
  if is_none item then
    if should_missing_item_be_fetched_synchronously job then
      emit (ELog DEBUG MissSync) ;;;
      fetched <- refresh job env args kwargs ;;
      lift (got_miss fetched false raw_args raw_kwargs)
    else
      emit (ELog DEBUG MissAsync) ;;;
      let empty := empty job in
      cache_set job env k (timeout job env) empty (PStr "QUEUED") ;;;
      async_refresh job env args kwargs ;;;
      let fetched := empty in
      lift (got_miss fetched true raw_args raw_kwargs)
  else
    let* (expiry, data, status) := lift (unpack3 item) in
    delta <- lift (time_minus (now env) expiry) ;;
    if delta >? 0 then
      sync <- lift (should_stale_item_be_fetched_synchronously job delta kwargs) ;;
      if sync then
        emit (ELog DEBUG StaleSync) ;;;
        fetched <- refresh job env args kwargs ;;
        lift (got_stale fetched false raw_args raw_kwargs)
      else
        emit (ELog DEBUG StaleAsync) ;;;
        let timeout := timeout job env in
        cache_set job env k timeout data (PStr "QUEUED") ;;;
        async_refresh job env args kwargs ;;;
        let fetched := data in
        lift (got_stale fetched true raw_args raw_kwargs)
    else
      emit (ELog DEBUG (Hit status)) ;;;
      let fetched := data in
      lift (got_hit fetched status raw_args raw_kwargs).

(** [Job.invalidate]. *)
Definition invalidate (job : Job) (env : Env)
    (raw_args : list pyval) (raw_kwargs : kwargs_t) : M unit :=
  let args := prepare_args raw_args in
  let kwargs := prepare_kwargs raw_kwargs in
  k <- lift (key job args kwargs) ;;
  item <- cache_get k PNone ;;
  if negb (is_none item) then
    let* (expiry, data) := lift (unpack2 item) in
    cache_set job env k (timeout job env) data (PStr "QUEUED") ;;;
    async_refresh job env args kwargs ;;;
    ret tt
  else ret tt.

(** [Job.delete]. *)
Definition delete (job : Job) (env : Env)
    (raw_args : list pyval) (raw_kwargs : kwargs_t) : M unit :=
  let args := prepare_args raw_args in
  let kwargs := prepare_kwargs raw_kwargs in
  k <- lift (key job args kwargs) ;;
  item <- cache_get k PNone ;;
  if negb (is_none item) then cache_delete k else ret tt.

(* ===================================================================== *)
(** ** Observations on a world *)
(* ===================================================================== *)

Definition is_dispatch (e : event) : bool :=
  match e with EDispatch _ => true | _ => false end.

Definition is_fetch (e : event) : bool :=
  match e with EFetch _ _ => true | _ => false end.

Fixpoint count (p : event -> bool) (l : list event) : nat :=
  match l with
  | [] => O
  | e :: l' => if p e then S (count p l') else count p l'
  end.

(** The number of submissions to the task queue so far. *)
Definition dispatches (w : World) : nat := count is_dispatch (trace w).

(** The number of calls of [fetch] so far. *)
Definition fetches (w : World) : nat := count is_fetch (trace w).

(** The value stored under a key. *)
Definition stored (w : World) (k : string) : option pyval :=
  fst <$> store w !! k.

(** The fields of a stored tuple, in the order [cache_set] writes them:
    [(expiry, status, data)]. *)
Definition entry_expiry (v : pyval) : option pyval :=
  match v with PTuple l => l !! 0%nat | _ => None end.

Definition entry_status (v : pyval) : option pyval :=
  match v with PTuple l => l !! 1%nat | _ => None end.

Definition entry_data (v : pyval) : option pyval :=
  match v with PTuple l => l !! 2%nat | _ => None end.

(** A stored value is a complete entry: a tuple of exactly three items whose
    first is the expiry time stamp. *)
Definition is_entry (v : pyval) : bool :=
  match v with
  | PTuple [PInt _; _; _] => true
  | _ => false
  end.

(** Every value in the cache is a complete entry. *)
Definition store_ok (w : World) : Prop :=
  forall k v ttl, store w !! k = Some (v, ttl) -> is_entry v = true.

(** A computation keeps [store_ok], whether it returns or raises. *)
Definition preserves {A} (m : M A) : Prop :=
  forall w, store_ok w -> store_ok (snd (m w)).

(** The environment with a task queue that accepts every submission. *)
Definition accepting (env : Env) : Env :=
  {| now := now env;
     apply_async := fun _ => None;
     CACHEBACK_VERIFY_CACHE_WRITE := CACHEBACK_VERIFY_CACHE_WRITE env |}.

(** The first exception raised while the tuples that [key] hashes are put
    to text: the tuple of the positional arguments, then the tuple of the
    keyword values (the keyword names are strings and always print). *)
Definition encoding_error (args : list pyval) (kwargs : kwargs_t) : option exn :=
  match py_repr (PTuple args) with
  | Raise e => Some e
  | Ok _ =>
      match py_repr (PTuple (map snd kwargs)) with
      | Raise e => Some e
      | Ok _ => None
      end
  end.

(** *** The jobs and environments of the scenarios *)

Definition V : pyval := PStr "V".

(** A job with the attributes of the class: lifetime 600, refresh timeout
    60, [fetch_on_miss] set, no stale threshold; [fetch] computes [V]. *)
Definition scenario_job : Job := default_job "app.jobs.Scenario" (fun _ _ => Ok V).

(** The same job with [fetch_on_miss = False]. *)
Definition placeholder_job : Job :=
  {| class_path := "app.jobs.Scenario";
     lifetime := 600;
     refresh_timeout := 60;
     cache_ttl := MEMCACHE_MAX_EXPIRATION;
     fetch_on_miss := false;
     fetch_on_stale_threshold := None;
     task_options := [];
     fetch := fun _ _ => Ok V |}.

(** The clock at [t], a task queue that accepts, write verification on. *)
Definition at_time (t : Z) : Env :=
  {| now := t; apply_async := fun _ => None; CACHEBACK_VERIFY_CACHE_WRITE := true |}.

(** The clock at [t] and a task queue that refuses every submission. *)
Definition broker_down (t : Z) : Env :=
  {| now := t;
     apply_async := fun _ => Some (OtherException "ConnectionError" "refused");
     CACHEBACK_VERIFY_CACHE_WRITE := true |}.

(** The cache key of [get("a")] for the scenario jobs. *)
Definition key_a : string := "app.jobs.Scenario:cfea63879ac12dfbea87b362984813f1".

(** The world after [get("a")] at time 0 on an empty cache. *)
Definition world_after_first_get : World :=
  snd (get scenario_job (at_time 0) [PStr "a"] [] empty_world).

(** *** Further observations *)

(** A value built without user classes: [None], booleans, integers, text,
    bytes, and tuples and lists of such values. *)
Fixpoint plain (v : pyval) : bool :=
  match v with
  | PTuple l | PList l => forallb plain l
  | PObj _ _ => false
  | _ => true
  end.

(** A computation leaves the entries under all keys but [k] as they are. *)
Definition frames {A} (k : string) (m : M A) : Prop :=
  forall w k', k' <> k -> store (snd (m w)) !! k' = store w !! k'.

(** A computation removes no entry. *)
Definition keeps_keys {A} (m : M A) : Prop :=
  forall w k', is_Some (store w !! k') -> is_Some (store (snd (m w)) !! k').

(** A computation makes at most one submission and at most one call of
    [fetch], and only adds to the trace. *)
Definition at_most_once {A} (m : M A) : Prop :=
  forall w,
    (dispatches w <= dispatches (snd (m w)) <= S (dispatches w))%nat /\
    (fetches w <= fetches (snd (m w)) <= S (fetches w))%nat.

(** No keyword has the name of a parameter of the methods that [get] hands
    the keywords to: [fetched], [async], [status], [delta]. *)
Definition hook_safe (kwargs : kwargs_t) : bool :=
  match clash ["fetched"; "async"; "status"; "delta"] kwargs with
  | None => true
  | Some _ => false
  end.

(** A value without nesting, or a tuple or list of such values. *)
Definition flat (v : pyval) : bool :=
  match v with
  | PTuple l | PList l =>
      forallb (fun x => match x with
                        | PTuple _ | PList _ | PObj _ _ => false
                        | _ => true
                        end) l
  | PObj _ _ => false
  | _ => true
  end.

(** The scenario job with a stale threshold of 900 seconds. *)
Definition threshold_job : Job :=
  {| class_path := "app.jobs.Scenario";
     lifetime := 600;
     refresh_timeout := 60;
     cache_ttl := MEMCACHE_MAX_EXPIRATION;
     fetch_on_miss := true;
     fetch_on_stale_threshold := Some 900;
     task_options := [];
     fetch := fun _ _ => Ok (PStr "W") |}.

(** The scenario job with a [fetch] that raises. *)
Definition failing_job : Job :=
  default_job "app.jobs.Scenario" (fun _ _ => Raise (OtherException "IOError" "down")).

(** An argument whose [__repr__] raises a [TypeError]. *)
Definition unprintable : pyval :=
  PObj "Weird" (Raise (TypeError "__repr__ returned non-string")).

(* ===================================================================== *)
(** ** The digest on the test vectors of RFC 1321 *)
(* ===================================================================== *)

Example md5_empty : MD5.hexdigest "" = "d41d8cd98f00b204e9800998ecf8427e".
Proof. vm_compute. reflexivity. Qed.

Example md5_abc : MD5.hexdigest "abc" = "900150983cd24fb0d6963f7d28e17f72".
Proof. vm_compute. reflexivity. Qed.

(** A message of 56 bytes needs a second block for its padding. *)
Example md5_two_blocks :
  MD5.hexdigest "aaaaaaaaaaaaaaaaaaaaaaaaaaaaaaaaaaaaaaaaaaaaaaaaaaaaaaaa"
  = "3b0c8ac703f828b04c6c197006d17218".
Proof. vm_compute. reflexivity. Qed.

Example md5_alphabet :
  MD5.hexdigest "abcdefghijklmnopqrstuvwxyz" = "c3fcd3d76192e4007dfb496cca67e13b".
Proof. vm_compute. reflexivity. Qed.

(* ===================================================================== *)
(** ** The write path *)
(* ===================================================================== *)

(** With a backend that keeps what it is given, the read-back of
    [cache_set] finds the data: the call returns and the key holds the
    tuple [(expiry, status, data)]. *)
Lemma cache_set_spec job env k e s d w :
  cache_set job env k e s d w
  = (Ok tt, {| store := <[k := (PTuple [PInt e; s; d], cache_ttl job)]> (store w);
               trace := trace w |}).
Proof.
  unfold cache_set, bind, cache_put, cache_get, lift, ret, raise. simpl.
  destruct (CACHEBACK_VERIFY_CACHE_WRITE env); [|reflexivity].
  cbn [store]. rewrite lookup_insert_eq. simpl.
  destruct d; reflexivity.
Qed.

(** [refresh] when [fetch] returns and the key can be built. *)
Lemma refresh_spec job env args kwargs k v w :
  fetch job args kwargs = Ok v ->
  key job args kwargs = Ok k ->
  refresh job env args kwargs w
  = (Ok v,
     {| store := <[k := (PTuple [PInt (now env + lifetime job); PStr "FRESH"; v],
                         cache_ttl job)]> (store w);
        trace := EFetch args kwargs :: trace w |}).
Proof.
  intros Hf Hk. unfold refresh, bind, emit, lift, ret.
  rewrite Hf, Hk, cache_set_spec. reflexivity.
Qed.

(** [refresh] calls [fetch] exactly once and submits nothing, whatever the
    outcome. *)
Lemma refresh_counts job env args kwargs w :
  fetches (snd (refresh job env args kwargs w)) = S (fetches w) /\
  dispatches (snd (refresh job env args kwargs w)) = dispatches w.
Proof.
  unfold refresh, bind, emit, lift, ret.
  destruct (fetch job args kwargs); [|split; reflexivity].
  destruct (key job args kwargs); [|split; reflexivity].
  rewrite cache_set_spec. split; reflexivity.
Qed.

(* ===================================================================== *)
(** ** The storage invariant *)
(* ===================================================================== *)

Lemma preserves_ret {A} (a : A) : preserves (ret a).
Proof. intros w H. exact H. Qed.

Lemma preserves_raise {A} (e : exn) : preserves (@raise A e).
Proof. intros w H. exact H. Qed.

Lemma preserves_lift {A} (r : result A) : preserves (lift r).
Proof. intros w H. exact H. Qed.

Lemma preserves_emit e : preserves (emit e).
Proof. intros w H. exact H. Qed.

Lemma preserves_cache_get k d : preserves (cache_get k d).
Proof. intros w H. exact H. Qed.

Lemma preserves_cache_delete k : preserves (cache_delete k).
Proof.
  intros w H k' v ttl Hl. cbn [snd fst cache_delete store] in Hl.
  apply lookup_delete_Some in Hl as [_ Hl]. exact (H _ _ _ Hl).
Qed.

Lemma preserves_bind {A B} (m : M A) (f : A -> M B) :
  preserves m -> (forall a, preserves (f a)) -> preserves (bind m f).
Proof.
  intros Hm Hf w H. unfold bind. specialize (Hm w H).
  destruct (m w) as [[a|e] w']; simpl in *; [apply Hf|]; exact Hm.
Qed.

Lemma preserves_try_except {A} (m : M A) (h : exn -> M A) :
  preserves m -> (forall e, preserves (h e)) -> preserves (try_except m h).
Proof.
  intros Hm Hh w H. unfold try_except. specialize (Hm w H).
  destruct (m w) as [[a|e] w']; simpl in *; [|apply Hh]; exact Hm.
Qed.

Lemma preserves_if {A} (b : bool) (m1 m2 : M A) :
  preserves m1 -> preserves m2 -> preserves (if b then m1 else m2).
Proof. destruct b; auto. Qed.

(** The one place that writes: [cache_set] stores a complete entry. *)
Lemma preserves_cache_set job env k e s d : preserves (cache_set job env k e s d).
Proof.
  intros w H. rewrite cache_set_spec. intros k' v ttl Hl. cbn [snd store] in Hl.
  destruct (decide (k = k')) as [->|Hne].
  - rewrite lookup_insert_eq in Hl. injection Hl as <- _. reflexivity.
  - rewrite lookup_insert_ne in Hl by exact Hne. exact (H _ _ _ Hl).
Qed.

Create HintDb preserves.
#[local] Hint Resolve preserves_ret preserves_raise preserves_lift
  preserves_emit preserves_cache_get preserves_cache_delete
  preserves_cache_set preserves_if : preserves.

Ltac preserves_step :=
  first [ solve [auto with preserves]
        | apply preserves_bind; [|intros ?]
        | apply preserves_try_except; [|intros ?]
        | match goal with
          | |- preserves (match ?x with _ => _ end) => destruct x
          end ].

Lemma preserves_refresh job env args kwargs :
  preserves (refresh job env args kwargs).
Proof. unfold refresh. repeat preserves_step. Qed.

Lemma preserves_async_refresh job env args kwargs :
  preserves (async_refresh job env args kwargs).
Proof.
  unfold async_refresh, dispatch.
  repeat first [ apply preserves_refresh | preserves_step ].
Qed.

Lemma preserves_get job env args kwargs : preserves (get job env args kwargs).
Proof.
  unfold get.
  repeat first [ apply preserves_refresh | apply preserves_async_refresh
               | preserves_step ].
Qed.

Lemma preserves_invalidate job env args kwargs :
  preserves (invalidate job env args kwargs).
Proof.
  unfold invalidate.
  repeat first [ apply preserves_async_refresh | preserves_step ].
Qed.

Lemma preserves_delete job env args kwargs :
  preserves (delete job env args kwargs).
Proof. unfold delete. repeat preserves_step. Qed.

(** C10.  Every operation keeps the storage invariant, whether it returns
    or raises: after [get], [refresh], [invalidate] (and [delete],
    [async_refresh]) every value in the backing store is still a complete
    entry, a tuple of exactly three items headed by its expiry.  No
    operation stores [None] or a shorter tuple under a key: the only writer
    is [cache_set]. *)
Theorem storage_invariant job env args kwargs w :
  store_ok w ->
  store_ok (snd (get job env args kwargs w)) /\
  store_ok (snd (refresh job env args kwargs w)) /\
  store_ok (snd (invalidate job env args kwargs w)) /\
  store_ok (snd (delete job env args kwargs w)) /\
  store_ok (snd (async_refresh job env args kwargs w)).
Proof.
  intros H. repeat split.
  - apply preserves_get, H.
  - apply preserves_refresh, H.
  - apply preserves_invalidate, H.
  - apply preserves_delete, H.
  - apply preserves_async_refresh, H.
Qed.

Lemma store_ok_empty : store_ok empty_world.
Proof. intros k v ttl H. cbn [empty_world store] in H. rewrite lookup_empty in H. discriminate H. Qed.

(** The empty cache is in order, and so is the cache after a [get]. *)
Lemma storage_invariant_witness :
  store_ok empty_world /\
  store_ok (snd (get scenario_job (at_time 0) [PStr "a"] [] empty_world)).
Proof.
  split; [exact store_ok_empty|].
  exact (proj1 (storage_invariant scenario_job (at_time 0) [PStr "a"] []
                  empty_world store_ok_empty)).
Defined.

(* ===================================================================== *)
(** ** The dispatch adapter *)
(* ===================================================================== *)

(** An accepted submission: one event, no fetch, no write. *)
Lemma async_refresh_accepted job env args kwargs w :
  apply_async env (refresh_task job args kwargs) = None ->
  async_refresh job env args kwargs w
  = (Ok PNone, {| store := store w;
                  trace := EDispatch (refresh_task job args kwargs) :: trace w |}).
Proof.
  intros H. unfold async_refresh, try_except, dispatch, bind, emit, ret.
  rewrite H. reflexivity.
Qed.

(** [async_refresh] never raises. *)
Lemma async_refresh_total job env args kwargs w :
  exists v, fst (async_refresh job env args kwargs w) = Ok v.
Proof.
  unfold async_refresh, try_except, dispatch, bind, emit, ret, raise.
  destruct (apply_async env _); cbn [fst snd]; [|eauto].
  destruct (refresh job env args kwargs _) as [[v|e'] w']; cbn [fst]; eauto.
Qed.

(** Every call of [async_refresh] makes exactly one submission. *)
Lemma async_refresh_dispatches job env args kwargs w :
  dispatches (snd (async_refresh job env args kwargs w)) = S (dispatches w).
Proof.
  unfold async_refresh, try_except, dispatch, bind, emit, ret, raise.
  destruct (apply_async env _); cbn [fst snd]; [|reflexivity].
  match goal with |- context [refresh job env args kwargs ?w0] =>
    pose proof (refresh_counts job env args kwargs w0) as [_ Hd];
    destruct (refresh job env args kwargs w0) as [[v|e'] w'] end;
    cbn [snd] in *; unfold dispatches in *; cbn [trace count is_dispatch] in *;
    rewrite Hd; reflexivity.
Qed.

Lemma cache_set_accepting job env : cache_set job (accepting env) = cache_set job env.
Proof. reflexivity. Qed.

Lemma refresh_accepting job env : refresh job (accepting env) = refresh job env.
Proof. reflexivity. Qed.

(** Case analysis on the calls of [async_refresh] in the goal: each one
    returns. *)
Ltac async_returns :=
  repeat match goal with
    | |- context [async_refresh ?j ?e ?a ?k ?w0] =>
        let H := fresh "H" in
        destruct (async_refresh_total j e a k w0) as [? H];
        destruct (async_refresh j e a k w0) as [[?|?] ?];
        cbn [fst] in H; [|discriminate H]
    end;
  reflexivity.

(** What [get] returns does not depend on the answer of the task queue. *)
Lemma get_result_any_queue job env args kwargs w :
  fst (get job env args kwargs w) = fst (get job (accepting env) args kwargs w).
Proof.
  unfold get, bind, lift, cache_get, ret.
  rewrite refresh_accepting.
  destruct (key job _ _) as [k|]; [|reflexivity].
  destruct (is_none _).
  - destruct (should_missing_item_be_fetched_synchronously job); [reflexivity|].
    unfold emit. cbn [timeout accepting now]. rewrite !cache_set_spec.
    async_returns.
  - destruct (unpack3 _) as [[[ex d] st]|]; [|reflexivity].
    cbn [accepting now].
    destruct (time_minus _ _) as [delta|]; [|reflexivity].
    destruct (delta >? 0); [|reflexivity].
    destruct (should_stale_item_be_fetched_synchronously job delta _) as [[]|];
      [reflexivity| |reflexivity].
    unfold emit. cbn [timeout accepting now]. rewrite !cache_set_spec.
    async_returns.
Qed.

(** Without a key named as a parameter, the keywords bind. *)
Lemma bind_keywords_ok f params kwargs :
  clash params kwargs = None -> bind_keywords f params kwargs = Ok tt.
Proof. intros H. unfold bind_keywords. rewrite H. reflexivity. Qed.

(** With such a key, the call raises [TypeError]. *)
Lemma bind_keywords_clash f params kwargs name :
  clash params kwargs = Some name ->
  exists msg, bind_keywords f params kwargs = Raise (TypeError msg).
Proof. intros H. unfold bind_keywords. rewrite H. eauto. Qed.

Lemma clash_subset params params' kwargs :
  (forall name, existsb (String.eqb name) params = true ->
                existsb (String.eqb name) params' = true) ->
  clash params' kwargs = None -> clash params kwargs = None.
Proof.
  intros Hsub. induction kwargs as [|[name v] kwargs IH]; cbn [clash]; [reflexivity|].
  destruct (existsb (String.eqb name) params') eqn:H'; [discriminate|].
  destruct (existsb (String.eqb name) params) eqn:H.
  - rewrite (Hsub _ H) in H'. discriminate H'.
  - exact IH.
Qed.

Lemma hook_safe_clash params kwargs :
  (forall name, existsb (String.eqb name) params = true ->
                existsb (String.eqb name) ["fetched"; "async"; "status"; "delta"]
                = true) ->
  hook_safe kwargs = true -> clash params kwargs = None.
Proof.
  intros Hsub H. apply (clash_subset _ _ _ Hsub).
  unfold hook_safe in H. destruct (clash _ kwargs); [discriminate H|reflexivity].
Qed.

Lemma in_hook_names (params : list string) :
  forallb (fun p => existsb (String.eqb p) ["fetched"; "async"; "status"; "delta"])
          params = true ->
  forall name, existsb (String.eqb name) params = true ->
               existsb (String.eqb name) ["fetched"; "async"; "status"; "delta"]
               = true.
Proof.
  intros Hall name Hin. apply existsb_exists in Hin as (p & Hp & He).
  apply String.eqb_eq in He as ->.
  rewrite forallb_forall in Hall. exact (Hall p Hp).
Qed.

Lemma got_miss_hook_safe v a args kwargs :
  hook_safe kwargs = true -> got_miss v a args kwargs = Ok v.
Proof.
  intros H. unfold got_miss.
  rewrite bind_keywords_ok; [reflexivity|].
  apply hook_safe_clash; [apply in_hook_names; reflexivity|exact H].
Qed.

Lemma got_hit_hook_safe v s args kwargs :
  hook_safe kwargs = true -> got_hit v s args kwargs = Ok v.
Proof.
  intros H. unfold got_hit.
  rewrite bind_keywords_ok; [reflexivity|].
  apply hook_safe_clash; [apply in_hook_names; reflexivity|exact H].
Qed.

Lemma got_stale_hook_safe v a args kwargs :
  hook_safe kwargs = true -> got_stale v a args kwargs = Ok v.
Proof.
  intros H. unfold got_stale.
  rewrite bind_keywords_ok; [reflexivity|].
  apply hook_safe_clash; [apply in_hook_names; reflexivity|exact H].
Qed.

Lemma hook_safe_delta kwargs : hook_safe kwargs = true -> clash ["delta"] kwargs = None.
Proof. apply hook_safe_clash, in_hook_names. reflexivity. Qed.

(** The choice on the stale path, when the keywords bind. *)
Lemma should_stale_bound job delta kwargs :
  clash ["delta"] kwargs = None ->
  should_stale_item_be_fetched_synchronously job delta kwargs
  = Ok match fetch_on_stale_threshold job with
       | None => false
       | Some threshold => delta >? threshold - lifetime job
       end.
Proof.
  intros H. unfold should_stale_item_be_fetched_synchronously.
  rewrite bind_keywords_ok by exact H. destruct (fetch_on_stale_threshold job); reflexivity.
Qed.

(* ===================================================================== *)
(** ** The read path *)
(* ===================================================================== *)

(** A stored entry whose expiry has not passed: [get] reads the second item
    of the tuple as [data] and the third as [status], writes nothing and
    ends with the call of [got_hit]. *)
Lemma get_hit_spec job env args kwargs k e x y ttl w :
  key job args kwargs = Ok k ->
  store w !! k = Some (PTuple [PInt e; x; y], ttl) ->
  now env <= e ->
  get job env args kwargs w
  = (got_hit x y args kwargs,
     {| store := store w; trace := ELog DEBUG (Hit y) :: trace w |}).
Proof.
  intros Hk Hl He. unfold get, bind, lift, cache_get, prepare_args, prepare_kwargs.
  rewrite Hk, Hl. cbn [is_none unpack3 py_iter time_minus].
  destruct (Z.gtb_spec (now env - e) 0); [lia|]. reflexivity.
Qed.

(** A stored entry whose expiry has passed, on the path of the asynchronous
    refresh: the entry is rewritten, [async_refresh] runs, and [get] ends
    with the call of [got_stale]. *)
Lemma get_stale_async_any job env args kwargs k e x y ttl w :
  key job args kwargs = Ok k ->
  store w !! k = Some (PTuple [PInt e; x; y], ttl) ->
  e < now env ->
  should_stale_item_be_fetched_synchronously job (now env - e) kwargs = Ok false ->
  fst (get job env args kwargs w) = got_stale x true args kwargs /\
  snd (get job env args kwargs w)
  = snd (async_refresh job env args kwargs
           {| store := <[k := (PTuple [PInt (now env + refresh_timeout job); x;
                                       PStr "QUEUED"], cache_ttl job)]> (store w);
              trace := ELog DEBUG StaleAsync :: trace w |}).
Proof.
  intros Hk Hl He Hs.
  unfold get, bind, lift, cache_get, prepare_args, prepare_kwargs.
  rewrite Hk, Hl. cbn [is_none unpack3 py_iter time_minus].
  destruct (Z.gtb_spec (now env - e) 0); [|lia].
  rewrite Hs. unfold emit, timeout. rewrite cache_set_spec. cbn [store trace].
  match goal with |- context [async_refresh ?j ?en ?a ?kw ?w0] =>
    destruct (async_refresh_total j en a kw w0) as [? Hr];
    destruct (async_refresh j en a kw w0) as [[?|?] ?];
    cbn [fst] in Hr; [|discriminate Hr] end.
  split; reflexivity.
Qed.

(** The same with no stale threshold and a task queue that accepts. *)
Lemma get_stale_async_spec job env args kwargs k e x y ttl w :
  key job args kwargs = Ok k ->
  store w !! k = Some (PTuple [PInt e; x; y], ttl) ->
  e < now env ->
  fetch_on_stale_threshold job = None ->
  clash ["delta"] kwargs = None ->
  apply_async env (refresh_task job args kwargs) = None ->
  get job env args kwargs w
  = (got_stale x true args kwargs,
     {| store := <[k := (PTuple [PInt (now env + refresh_timeout job); x; PStr "QUEUED"],
                         cache_ttl job)]> (store w);
        trace := EDispatch (refresh_task job args kwargs)
                 :: ELog DEBUG StaleAsync :: trace w |}).
Proof.
  intros Hk Hl He Ht Hc Ha.
  destruct (get_stale_async_any job env args kwargs k e x y ttl w Hk Hl He)
    as [H1 H2].
  { rewrite should_stale_bound by exact Hc. rewrite Ht. reflexivity. }
  rewrite async_refresh_accepted in H2 by exact Ha. cbn [snd store trace] in H2.
  rewrite (surjective_pairing (get job env args kwargs w)), H1, H2. reflexivity.
Qed.

(** A miss with [fetch_on_miss] unset: the placeholder is written,
    [async_refresh] runs, and [get] ends with the call of [got_miss]. *)
Lemma get_miss_async_any job env args kwargs k w :
  key job args kwargs = Ok k ->
  store w !! k = None ->
  fetch_on_miss job = false ->
  fst (get job env args kwargs w) = got_miss (empty job) true args kwargs /\
  snd (get job env args kwargs w)
  = snd (async_refresh job env args kwargs
           {| store := <[k := (PTuple [PInt (now env + refresh_timeout job);
                                       empty job; PStr "QUEUED"],
                               cache_ttl job)]> (store w);
              trace := ELog DEBUG MissAsync :: trace w |}).
Proof.
  intros Hk Hl Hm.
  unfold get, bind, lift, cache_get, prepare_args, prepare_kwargs.
  rewrite Hk, Hl. cbn [is_none].
  unfold should_missing_item_be_fetched_synchronously. rewrite Hm.
  unfold emit, timeout. rewrite cache_set_spec. cbn [store trace].
  match goal with |- context [async_refresh ?j ?en ?a ?kw ?w0] =>
    destruct (async_refresh_total j en a kw w0) as [? Hr];
    destruct (async_refresh j en a kw w0) as [[?|?] ?];
    cbn [fst] in Hr; [|discriminate Hr] end.
  split; reflexivity.
Qed.

(** The same with a task queue that accepts. *)
Lemma get_miss_async_spec job env args kwargs k w :
  key job args kwargs = Ok k ->
  store w !! k = None ->
  fetch_on_miss job = false ->
  apply_async env (refresh_task job args kwargs) = None ->
  get job env args kwargs w
  = (got_miss (empty job) true args kwargs,
     {| store := <[k := (PTuple [PInt (now env + refresh_timeout job);
                                 empty job; PStr "QUEUED"],
                         cache_ttl job)]> (store w);
        trace := EDispatch (refresh_task job args kwargs)
                 :: ELog DEBUG MissAsync :: trace w |}).
Proof.
  intros Hk Hl Hm Ha.
  destruct (get_miss_async_any job env args kwargs k w Hk Hl Hm) as [H1 H2].
  rewrite async_refresh_accepted in H2 by exact Ha. cbn [snd store trace] in H2.
  rewrite (surjective_pairing (get job env args kwargs w)), H1, H2. reflexivity.
Qed.

(** What a refused submission adds to the counts. *)
Lemma async_refresh_refused_counts job env args kwargs e w :
  apply_async env (refresh_task job args kwargs) = Some e ->
  fetches (snd (async_refresh job env args kwargs w)) = S (fetches w) /\
  dispatches (snd (async_refresh job env args kwargs w)) = S (dispatches w).
Proof.
  intros H. split; [|apply async_refresh_dispatches].
  unfold async_refresh, try_except, dispatch, bind, emit, ret, raise.
  rewrite H. cbn [fst snd].
  match goal with |- context [refresh job env args kwargs ?w0] =>
    pose proof (refresh_counts job env args kwargs w0) as [Hf _];
    destruct (refresh job env args kwargs w0) as [[v|e'] w'] end;
    cbn [snd] in *; unfold fetches in *; cbn [trace count is_fetch] in *;
    rewrite Hf; reflexivity.
Qed.

(** C9, as the code has it.  When the submission to the task queue raises,
    [async_refresh] attempts the synchronous [refresh] exactly once (one
    call of [fetch], one submission) and returns without raising, also when
    that refresh raises.  [get] then ends as it does after an accepted
    submission, with the call of its hook on the value it had before: on a
    miss without [fetch_on_miss] it returns what [got_miss] makes of the
    placeholder, on an expired entry without stale threshold what
    [got_stale] makes of the value it had unpacked as data; the hook returns
    that value unless a keyword has the name of one of its parameters. *)
Theorem async_refresh_failover job env args kwargs w e :
  apply_async env (refresh_task job args kwargs) = Some e ->
  (exists v, fst (async_refresh job env args kwargs w) = Ok v) /\
  fetches (snd (async_refresh job env args kwargs w)) = S (fetches w) /\
  dispatches (snd (async_refresh job env args kwargs w)) = S (dispatches w) /\
  fst (get job env args kwargs w) = fst (get job (accepting env) args kwargs w) /\
  (forall k,
      key job args kwargs = Ok k -> store w !! k = None ->
      fetch_on_miss job = false ->
      fst (get job env args kwargs w) = got_miss (empty job) true args kwargs /\
      (clash ["fetched"; "async"] kwargs = None ->
       fst (get job env args kwargs w) = Ok (empty job)) /\
      dispatches (snd (get job env args kwargs w)) = S (dispatches w) /\
      fetches (snd (get job env args kwargs w)) = S (fetches w)) /\
  (forall k t x y ttl,
      key job args kwargs = Ok k ->
      store w !! k = Some (PTuple [PInt t; x; y], ttl) ->
      t < now env -> fetch_on_stale_threshold job = None ->
      clash ["delta"] kwargs = None ->
      fst (get job env args kwargs w) = got_stale x true args kwargs /\
      (clash ["fetched"; "async"] kwargs = None ->
       fst (get job env args kwargs w) = Ok x) /\
      dispatches (snd (get job env args kwargs w)) = S (dispatches w) /\
      fetches (snd (get job env args kwargs w)) = S (fetches w)).
Proof.
  intros H. split; [apply async_refresh_total|].
  destruct (async_refresh_refused_counts job env args kwargs e w H) as [Hf Hd].
  split; [exact Hf|]. split; [exact Hd|]. split; [apply get_result_any_queue|].
  split.
  - intros k Hk Hl Hm.
    destruct (get_miss_async_any job env args kwargs k w Hk Hl Hm) as [H1 H2].
    rewrite H1, H2.
    match goal with |- context [async_refresh job env args kwargs ?w0] =>
      destruct (async_refresh_refused_counts job env args kwargs e w0 H) as [Hf' Hd'] end.
    split; [reflexivity|]. split.
    + intros Hc. unfold got_miss. rewrite bind_keywords_ok by exact Hc. reflexivity.
    + split; [exact Hd'|exact Hf'].
  - intros k t x y ttl Hk Hl Ht Hn Hc.
    destruct (get_stale_async_any job env args kwargs k t x y ttl w Hk Hl Ht)
      as [H1 H2].
    { rewrite should_stale_bound by exact Hc. rewrite Hn. reflexivity. }
    rewrite H1, H2.
    match goal with |- context [async_refresh job env args kwargs ?w0] =>
      destruct (async_refresh_refused_counts job env args kwargs e w0 H) as [Hf' Hd'] end.
    split; [reflexivity|]. split.
    + intros Hc'. unfold got_stale. rewrite bind_keywords_ok by exact Hc'. reflexivity.
    + split; [exact Hd'|exact Hf'].
Qed.

(** The submission raises and [fetch] raises as well: nothing reaches the
    caller of [get], who receives the placeholder. *)
Lemma async_refresh_failover_witness :
  let job := {| class_path := "app.jobs.Scenario"; lifetime := 600;
                refresh_timeout := 60; cache_ttl := MEMCACHE_MAX_EXPIRATION;
                fetch_on_miss := false; fetch_on_stale_threshold := None;
                task_options := []; fetch := base_fetch |} in
  fst (get job (broker_down 0) [PStr "a"] [] empty_world) = Ok PNone /\
  fetches (snd (get job (broker_down 0) [PStr "a"] [] empty_world)) = 1%nat /\
  fetches (snd (async_refresh job (broker_down 0) [PStr "a"] [] empty_world)) = 1%nat.
Proof.
  intros job.
  destruct (async_refresh_failover job (broker_down 0) [PStr "a"] [] empty_world
              (OtherException "ConnectionError" "refused") eq_refl)
    as (_ & Hf & _ & _ & Hg & _).
  destruct (Hg key_a eq_refl eq_refl eq_refl) as (_ & Hv & _ & Hf').
  split; [exact (Hv eq_refl)|]. split; [exact Hf'|exact Hf].
Defined.

(** C9 as stated fails: the submission raises, [async_refresh] swallows
    the failure, and yet the caller of [get] does not receive the
    placeholder, since the keyword [async] is a second value for the
    parameter [async] of [got_miss]. *)
Lemma placeholder_lost_to_keyword :
  let kwargs := [("async", PBool true)] in
  apply_async (broker_down 0) (refresh_task placeholder_job [] kwargs)
  = Some (OtherException "ConnectionError" "refused") /\
  (exists k, key placeholder_job [] kwargs = Ok k /\ store empty_world !! k = None) /\
  fetch_on_miss placeholder_job = false /\
  fst (async_refresh placeholder_job (broker_down 0) [] kwargs empty_world) = Ok V /\
  fst (get placeholder_job (broker_down 0) [] kwargs empty_world)
  = Raise (TypeError "got_miss() got multiple values for argument 'async'").
Proof.
  intros kwargs. split; [reflexivity|]. split.
  - eexists. split; [vm_compute; reflexivity|apply lookup_empty].
  - split; [reflexivity|]. split; vm_compute; reflexivity.
Qed.

(** C5, as the code has it.  On a miss with [fetch_on_miss] set, [get]
    runs [fetch] itself (one call, no submission to the task queue), leaves
    under the key the entry [(now + lifetime, 'FRESH', value)] and returns
    what [got_miss] makes of the fetched value: exactly that value, unless
    a keyword is named [fetched] or [async]. *)
Theorem get_miss_fetches_synchronously job env args kwargs k v w :
  key job args kwargs = Ok k ->
  store w !! k = None ->
  fetch_on_miss job = true ->
  fetch job args kwargs = Ok v ->
  fst (get job env args kwargs w) = got_miss v false args kwargs /\
  (clash ["fetched"; "async"] kwargs = None ->
   fst (get job env args kwargs w) = Ok v) /\
  stored (snd (get job env args kwargs w)) k
  = Some (PTuple [PInt (now env + lifetime job); PStr "FRESH"; v]) /\
  fetches (snd (get job env args kwargs w)) = S (fetches w) /\
  dispatches (snd (get job env args kwargs w)) = dispatches w.
Proof.
  intros Hk Hl Hm Hf.
  unfold get, bind, lift, cache_get, prepare_args, prepare_kwargs.
  rewrite Hk, Hl. cbn [is_none].
  unfold should_missing_item_be_fetched_synchronously. rewrite Hm.
  unfold emit. rewrite (refresh_spec _ _ _ _ k v) by assumption.
  unfold stored. cbn [fst snd store].
  rewrite lookup_insert_eq. split; [reflexivity|]. split; [|repeat split; reflexivity].
  intros Hc. unfold got_miss. rewrite bind_keywords_ok by exact Hc. reflexivity.
Qed.

(** The first [get] of the scenario: an empty cache at time 0. *)
Lemma get_miss_fetches_synchronously_witness :
  fst (get scenario_job (at_time 0) [PStr "a"] [] empty_world) = Ok V /\
  stored (snd (get scenario_job (at_time 0) [PStr "a"] [] empty_world)) key_a
  = Some (PTuple [PInt (0 + 600); PStr "FRESH"; V]).
Proof.
  destruct (get_miss_fetches_synchronously scenario_job (at_time 0)
              [PStr "a"] [] key_a V empty_world)
    as (_ & Hr & Hs & _); [vm_compute; reflexivity | reflexivity
                          | reflexivity | reflexivity |].
  split; [exact (Hr eq_refl) | exact Hs].
Defined.

(** C5 as stated fails: on a miss with [fetch_on_miss] set, a call with a
    keyword named [fetched] fetches and stores the entry, and then raises
    [TypeError] instead of returning the fetched value. *)
Lemma miss_with_keyword_fetched_raises :
  let kwargs := [("fetched", PInt 1)] in
  let r := get scenario_job (at_time 0) [] kwargs empty_world in
  fetch_on_miss scenario_job = true /\
  fetch scenario_job [] kwargs = Ok V /\
  (exists k, key scenario_job [] kwargs = Ok k /\
             store empty_world !! k = None /\
             stored (snd r) k = Some (PTuple [PInt 600; PStr "FRESH"; V])) /\
  fst r = Raise (TypeError "got_miss() got multiple values for argument 'fetched'").
Proof.
  intros kwargs r. split; [reflexivity|]. split; [reflexivity|]. split.
  - eexists. split; [vm_compute; reflexivity|].
    split; [apply lookup_empty|vm_compute; reflexivity].
  - vm_compute. reflexivity.
Qed.

(** C3, as the code has it.  For every stored entry whose expiry is at or
    after the current time when [get] reads it ([now <= expiry]), [get]
    takes the hit path: it logs the hit, calls neither [fetch] nor the task
    queue, leaves the store as it was and ends with the call of [got_hit],
    which returns unless a keyword is named [fetched] or [status]. *)
Theorem get_unexpired_entry_hits job env args kwargs k e x y ttl w :
  key job args kwargs = Ok k ->
  store w !! k = Some (PTuple [PInt e; x; y], ttl) ->
  now env <= e ->
  (exists fetched status,
      fst (get job env args kwargs w) = got_hit fetched status args kwargs /\
      (clash ["fetched"; "status"] kwargs = None ->
       fst (get job env args kwargs w) = Ok fetched) /\
      trace (snd (get job env args kwargs w)) = ELog DEBUG (Hit status) :: trace w) /\
  dispatches (snd (get job env args kwargs w)) = dispatches w /\
  fetches (snd (get job env args kwargs w)) = fetches w /\
  store (snd (get job env args kwargs w)) = store w.
Proof.
  intros Hk Hl He. rewrite (get_hit_spec _ _ _ _ k e x y ttl) by assumption.
  split; [exists x, y; split; [reflexivity|split; [|reflexivity]]
         |repeat split; reflexivity].
  intros Hc. cbn [fst]. unfold got_hit. rewrite bind_keywords_ok by exact Hc.
  reflexivity.
Qed.

(** The entry of the scenario read at time 600, the very second it
    expires. *)
Lemma get_unexpired_entry_hits_witness :
  dispatches (snd (get scenario_job (at_time 600) [PStr "a"] [] world_after_first_get))
  = dispatches world_after_first_get /\
  store (snd (get scenario_job (at_time 600) [PStr "a"] [] world_after_first_get))
  = store world_after_first_get.
Proof.
  destruct (get_unexpired_entry_hits scenario_job (at_time 600) [PStr "a"] []
              key_a 600 (PStr "FRESH") V MEMCACHE_MAX_EXPIRATION
              world_after_first_get)
    as (_ & Hd & _ & Hs);
    [vm_compute; reflexivity | vm_compute; reflexivity | simpl; lia |].
  split; [exact Hd | exact Hs].
Defined.

(** C3 as stated fails: the entry of the scenario has expiry 600, which is
    [<=] the time 700 of the read, and [get] takes the stale path and
    submits a refresh. *)
Lemma expired_entry_is_refreshed :
  stored world_after_first_get key_a = Some (PTuple [PInt 600; PStr "FRESH"; V]) /\
  600 <= now (at_time 700) /\
  trace (snd (get scenario_job (at_time 700) [PStr "a"] [] world_after_first_get))
  = EDispatch (refresh_task scenario_job [PStr "a"] [])
    :: ELog DEBUG StaleAsync :: trace world_after_first_get /\
  dispatches (snd (get scenario_job (at_time 700) [PStr "a"] [] world_after_first_get))
  = S (dispatches world_after_first_get).
Proof. vm_compute. repeat split; congruence. Qed.

(** C4, as the code has it.  For every stored entry whose expiry is before
    the current time when [get] reads it ([expiry < now]), with no stale
    threshold and no keyword named [delta], [get] takes the stale path: it
    makes exactly one submission to the task queue and ends with the call
    of [got_stale] with [async] set, which returns unless a keyword is
    named [fetched] or [async]; when the queue accepts the submission,
    [get] has not called [fetch] and the entry is left rewritten with expiry
    [now + refresh_timeout]. *)
Theorem get_expired_entry_refreshes_async job env args kwargs k e x y ttl w :
  key job args kwargs = Ok k ->
  store w !! k = Some (PTuple [PInt e; x; y], ttl) ->
  e < now env ->
  fetch_on_stale_threshold job = None ->
  clash ["delta"] kwargs = None ->
  (exists fetched,
      fst (get job env args kwargs w) = got_stale fetched true args kwargs /\
      (clash ["fetched"; "async"] kwargs = None ->
       fst (get job env args kwargs w) = Ok fetched)) /\
  dispatches (snd (get job env args kwargs w)) = S (dispatches w) /\
  (apply_async env (refresh_task job args kwargs) = None ->
   fetches (snd (get job env args kwargs w)) = fetches w /\
   exists s d,
     stored (snd (get job env args kwargs w)) k
     = Some (PTuple [PInt (now env + refresh_timeout job); s; d])).
Proof.
  intros Hk Hl He Ht Hc.
  destruct (get_stale_async_any job env args kwargs k e x y ttl w Hk Hl He)
    as [H1 H2].
  { rewrite should_stale_bound by exact Hc. rewrite Ht. reflexivity. }
  split; [|split].
  - exists x. split; [exact H1|]. intros Hc'. rewrite H1. unfold got_stale.
    rewrite bind_keywords_ok by exact Hc'. reflexivity.
  - rewrite H2, async_refresh_dispatches. reflexivity.
  - intros Ha. rewrite H2, async_refresh_accepted by exact Ha.
    split; [reflexivity|]. exists x, (PStr "QUEUED").
    unfold stored. cbn [snd store]. rewrite lookup_insert_eq. reflexivity.
Qed.

(** The entry of the scenario read at time 700. *)
Lemma get_expired_entry_refreshes_async_witness :
  dispatches (snd (get scenario_job (at_time 700) [PStr "a"] [] world_after_first_get))
  = S (dispatches world_after_first_get) /\
  exists s d,
    stored (snd (get scenario_job (at_time 700) [PStr "a"] [] world_after_first_get)) key_a
    = Some (PTuple [PInt (700 + 60); s; d]).
Proof.
  destruct (get_expired_entry_refreshes_async scenario_job (at_time 700)
              [PStr "a"] [] key_a 600 (PStr "FRESH") V MEMCACHE_MAX_EXPIRATION
              world_after_first_get)
    as (_ & Hd & Hs);
    [vm_compute; reflexivity | vm_compute; reflexivity | simpl; lia
    | reflexivity | reflexivity |].
  split; [exact Hd | exact (proj2 (Hs eq_refl))].
Defined.

(** C4 as stated fails: the entry of the scenario has expiry 600, which is
    [>] the time 500 of the read, no stale threshold is set, and [get]
    submits nothing and rewrites nothing. *)
Lemma unexpired_entry_is_not_refreshed :
  fetch_on_stale_threshold scenario_job = None /\
  stored world_after_first_get key_a = Some (PTuple [PInt 600; PStr "FRESH"; V]) /\
  600 > now (at_time 500) /\
  dispatches (snd (get scenario_job (at_time 500) [PStr "a"] [] world_after_first_get))
  = dispatches world_after_first_get /\
  stored (snd (get scenario_job (at_time 500) [PStr "a"] [] world_after_first_get)) key_a
  = Some (PTuple [PInt 600; PStr "FRESH"; V]).
Proof. vm_compute. repeat split; congruence. Qed.

(* ===================================================================== *)
(** ** The layout of the stored tuple: [get] against [cache_set] *)
(* ===================================================================== *)

(** C1.  The scenario on the code: lifetime 600, refresh timeout 60,
    [fetch_on_miss] set, no stale threshold.  The [get] at time 0 computes
    [V] and leaves [(600, 'FRESH', V)].  The [get] at time 700 makes one
    submission, but it unpacks the tuple as [(expiry, data, status)] and
    hands [cache_set] its arguments in that order: it returns the string
    ['FRESH'] where the scenario expects [V], and leaves
    [(760, 'FRESH', 'QUEUED')] where the scenario expects
    [(760, 'QUEUED', V)]. *)
Theorem freshness_scenario :
  let r1 := get scenario_job (at_time 0) [PStr "a"] [] empty_world in
  let r2 := get scenario_job (at_time 700) [PStr "a"] [] (snd r1) in
  fst r1 = Ok V /\
  stored (snd r1) key_a = Some (PTuple [PInt 600; PStr "FRESH"; V]) /\
  fst r2 = Ok (PStr "FRESH") /\
  stored (snd r2) key_a = Some (PTuple [PInt 760; PStr "FRESH"; PStr "QUEUED"]) /\
  dispatches (snd r2) = 1%nat.
Proof. vm_compute. repeat split; reflexivity. Qed.

(** C2.  [invalidate] unpacks the stored item into two names.  Every entry
    that [cache_set] writes has three items, so on an existing entry the
    call raises [ValueError] before it writes or submits anything: the
    world is left as it was. *)
Theorem invalidate_existing_entry_raises job env args kwargs k e s d ttl w :
  key job args kwargs = Ok k ->
  store w !! k = Some (PTuple [PInt e; s; d], ttl) ->
  invalidate job env args kwargs w
  = (Raise (ValueError "too many values to unpack (expected 2)"), w).
Proof.
  intros Hk Hl. unfold invalidate, bind, lift, cache_get, prepare_args, prepare_kwargs.
  rewrite Hk, Hl. reflexivity.
Qed.

(** [invalidate("a")] on the entry that the first [get] of the scenario
    wrote. *)
Lemma invalidate_existing_entry_raises_witness :
  stored world_after_first_get key_a = Some (PTuple [PInt 600; PStr "FRESH"; V]) /\
  invalidate scenario_job (at_time 700) [PStr "a"] [] world_after_first_get
  = (Raise (ValueError "too many values to unpack (expected 2)"),
     world_after_first_get).
Proof.
  split; [vm_compute; reflexivity|].
  apply (invalidate_existing_entry_raises scenario_job (at_time 700) [PStr "a"] []
           key_a 600 (PStr "FRESH") V MEMCACHE_MAX_EXPIRATION);
    vm_compute; reflexivity.
Defined.

(** C6.  A miss with [fetch_on_miss] unset, on an empty cache at time 0:
    [get] returns the value of [empty()], makes one submission and the
    entry expires at [now + refresh_timeout]; but the call hands
    [cache_set] the placeholder where it takes the status and ['QUEUED']
    where it takes the data, so the stored tuple [(expiry, status, data)]
    is [(60, None, 'QUEUED')]: its status is the placeholder and its data
    is the string ['QUEUED']. *)
Theorem get_miss_placeholder_layout :
  let r := get placeholder_job (at_time 0) [PStr "a"] [] empty_world in
  fst r = Ok (empty placeholder_job) /\
  dispatches (snd r) = 1%nat /\
  fetches (snd r) = 0%nat /\
  stored (snd r) key_a = Some (PTuple [PInt (0 + 60); PNone; PStr "QUEUED"]) /\
  stored (snd r) key_a ≫= entry_status = Some (empty placeholder_job) /\
  stored (snd r) key_a ≫= entry_data = Some (PStr "QUEUED").
Proof. vm_compute. repeat split; reflexivity. Qed.

(* ===================================================================== *)
(** ** The key builder *)
(* ===================================================================== *)

Lemma kwargs_by_columns (kw1 kw2 : kwargs_t) :
  map fst kw1 = map fst kw2 -> map snd kw1 = map snd kw2 -> kw1 = kw2.
Proof.
  revert kw2. induction kw1 as [|[n1 v1] kw1 IH]; intros [|[n2 v2] kw2] Hf Hs;
    try discriminate; [reflexivity|].
  simpl in Hf, Hs. injection Hf as -> Hf. injection Hs as -> Hs.
  f_equal. apply IH; assumption.
Qed.

(** C7, as the code has it.  The key is a function of the class path, the
    positional arguments, and the keyword names and the keyword values each
    in the order the dictionary iterates them: calls that agree on these
    produce the identical result, whatever the rest of the job. *)
Theorem key_deterministic (j1 j2 : Job) args (kw1 kw2 : kwargs_t) :
  class_path j1 = class_path j2 ->
  map fst kw1 = map fst kw2 ->
  map snd kw1 = map snd kw2 ->
  key j1 args kw1 = key j2 args kw2.
Proof.
  intros Hp Hf Hs. rewrite (kwargs_by_columns kw1 kw2 Hf Hs).
  unfold key, key_body. rewrite Hp. reflexivity.
Qed.

Lemma key_deterministic_witness :
  key scenario_job [PStr "a"] [("x", PInt 1); ("y", PInt 2)]
  = key placeholder_job [PStr "a"] [("x", PInt 1); ("y", PInt 2)].
Proof.
  apply (key_deterministic scenario_job placeholder_job); reflexivity.
Defined.

(** C7 as stated fails: the same two keyword pairs, iterated in the two
    possible orders, give two different keys. *)
Lemma key_depends_on_kwargs_order :
  Permutation [("a", PInt 1); ("b", PInt 2)] [("b", PInt 2); ("a", PInt 1)] /\
  key scenario_job [] [("a", PInt 1); ("b", PInt 2)]
  = Ok ("app.jobs.Scenario:bcd8b0c2eb1fce714eab6cef0d771acc"
        +:+ ":aca14e654bc28ce1c1e8131004244d64:85985a7bd912508f89c96f0ff61e15a6") /\
  key scenario_job [] [("b", PInt 2); ("a", PInt 1)]
  = Ok ("app.jobs.Scenario:bcd8b0c2eb1fce714eab6cef0d771acc"
        +:+ ":82ca240c4a3f5579a5c33404af58e41b:54f983c58cd07ef08e5479180acbf64f") /\
  key scenario_job [] [("a", PInt 1); ("b", PInt 2)]
  <> key scenario_job [] [("b", PInt 2); ("a", PInt 1)].
Proof.
  split; [apply perm_swap|].
  split; [vm_compute; reflexivity|].
  split; [vm_compute; reflexivity|].
  vm_compute. discriminate.
Qed.

Lemma repr_keyword_names (kwargs : kwargs_t) :
  map_result py_repr (map (fun kv => PStr (fst kv)) kwargs)
  = Ok (map (fun kv => repr_text (fst kv)) kwargs).
Proof.
  induction kwargs as [|kv kwargs IH]; [reflexivity|].
  cbn [map map_result py_repr]. rewrite IH. reflexivity.
Qed.

(** The tuple of the keyword names always prints. *)
Lemma hash_keyword_names (kwargs : kwargs_t) :
  exists h, hash (PTuple (map (fun kv => PStr (fst kv)) kwargs)) = Ok h.
Proof.
  unfold hash, to_bytestring, PY2, py_str. cbn [py_repr].
  rewrite repr_keyword_names.
  destruct (map _ kwargs) as [|s [|s' ss]]; eauto.
Qed.

Lemma hash_tuple (l : list pyval) :
  hash (PTuple l)
  = match py_repr (PTuple l) with
    | Ok b => Ok (MD5.hexdigest b)
    | Raise e => Raise e
    end.
Proof. reflexivity. Qed.

(** C8, as the code has it.  [key] raises its [RuntimeError], whose message
    tells the caller to implement their own key generation method, when
    putting the hashed tuples to text raises a [TypeError]; any other
    exception raised there leaves [key] unchanged; and when the tuples
    print, [key] returns a key, also for arguments that Python cannot
    hash. *)
Theorem key_failure job args kwargs :
  match encoding_error args kwargs with
  | None => exists k, key job args kwargs = Ok k
  | Some (TypeError _) => key job args kwargs = Raise (RuntimeError key_error_message)
  | Some e => key job args kwargs = Raise e
  end /\
  key_error_message
  = "Unable to generate cache key due to unhashableargs or kwargs - "
    +:+ "you need to implement your ownkey generation method to avoid this problem".
Proof.
  split; [|reflexivity].
  unfold encoding_error, key, key_body.
  destruct args as [|a args], kwargs as [|kv kwargs]; cbn [is_empty negb andb].
  - cbn. eauto.
  - destruct (hash_keyword_names (kv :: kwargs)) as [hk ->].
    rewrite !hash_tuple.
    destruct (py_repr (PTuple [])) eqn:Ha; [|discriminate Ha].
    destruct (py_repr (PTuple (map snd (kv :: kwargs)))) as [?|[]]; eauto.
  - rewrite !hash_tuple.
    destruct (py_repr (PTuple (a :: args))) as [?|[]]; cbn; eauto.
  - destruct (hash_keyword_names (kv :: kwargs)) as [hk ->].
    rewrite !hash_tuple.
    destruct (py_repr (PTuple (a :: args))) as [?|[]]; try reflexivity.
    destruct (py_repr (PTuple (map snd (kv :: kwargs)))) as [?|[]]; eauto.
Qed.

(** C8 as stated fails: a list cannot be hashed, and [key] returns a key
    for it. *)
Lemma key_accepts_unhashable_argument :
  py_hashable (PList [PInt 1; PInt 2]) = false /\
  key scenario_job [PList [PInt 1; PInt 2]] []
  = Ok "app.jobs.Scenario:94a14176f272107846956cd04ab85cc8".
Proof. split; vm_compute; reflexivity. Qed.

(** An argument whose [__repr__] raises [TypeError] makes [key] raise its
    [RuntimeError]; one whose [__repr__] raises another exception makes
    [key] raise that exception. *)
Example key_on_unprintable_arguments :
  key scenario_job [PObj "Weird" (Raise (TypeError "__repr__ returned non-string"))] []
  = Raise (RuntimeError key_error_message) /\
  key scenario_job [] [("x", PObj "Odd" (Raise (ValueError "no")))]
  = Raise (ValueError "no").
Proof. split; vm_compute; reflexivity. Qed.

(* ===================================================================== *)
(** ** Removal, missing keys and failures *)
(* ===================================================================== *)

(** A miss with [fetch_on_miss] set and a [fetch] that returns. *)
Lemma get_miss_sync_spec job env args kwargs k v w :
  key job args kwargs = Ok k ->
  store w !! k = None ->
  fetch_on_miss job = true ->
  fetch job args kwargs = Ok v ->
  get job env args kwargs w
  = (got_miss v false args kwargs,
     {| store := <[k := (PTuple [PInt (now env + lifetime job); PStr "FRESH"; v],
                         cache_ttl job)]> (store w);
        trace := EFetch args kwargs :: ELog DEBUG MissSync :: trace w |}).
Proof.
  intros Hk Hl Hm Hf.
  unfold get, bind, lift, cache_get, prepare_args, prepare_kwargs.
  rewrite Hk, Hl. cbn [is_none].
  unfold should_missing_item_be_fetched_synchronously. rewrite Hm.
  unfold emit. rewrite (refresh_spec _ _ _ _ k v) by assumption.
  reflexivity.
Qed.

(** [delete] on a key that holds an entry. *)
Lemma delete_spec job env args kwargs k e s d ttl w :
  key job args kwargs = Ok k ->
  store w !! k = Some (PTuple [PInt e; s; d], ttl) ->
  delete job env args kwargs w
  = (Ok tt, {| store := base.delete k (store w); trace := trace w |}).
Proof.
  intros Hk Hl. unfold delete, bind, lift, cache_get, cache_delete,
    prepare_args, prepare_kwargs.
  rewrite Hk, Hl. reflexivity.
Qed.

(** [delete] on a key that holds an entry returns, removes that entry and no
    other, and neither logs, fetches nor submits anything. *)
Theorem delete_removes_entry job env args kwargs k e s d ttl w :
  key job args kwargs = Ok k ->
  store w !! k = Some (PTuple [PInt e; s; d], ttl) ->
  fst (delete job env args kwargs w) = Ok tt /\
  store (snd (delete job env args kwargs w)) !! k = None /\
  (forall k', k' <> k ->
     store (snd (delete job env args kwargs w)) !! k' = store w !! k') /\
  trace (snd (delete job env args kwargs w)) = trace w.
Proof.
  intros Hk Hl. rewrite (delete_spec _ _ _ _ k e s d ttl) by assumption.
  cbn [fst snd store trace].
  split; [reflexivity|]. split; [apply lookup_delete_eq|].
  split; [|reflexivity]. intros k' Hne. apply lookup_delete_ne. congruence.
Qed.

Lemma delete_removes_entry_witness :
  store (snd (delete scenario_job (at_time 5) [PStr "a"] [] world_after_first_get))
  !! key_a = None.
Proof.
  exact (proj1 (proj2 (delete_removes_entry scenario_job (at_time 5) [PStr "a"] []
                         key_a 600 (PStr "FRESH") V MEMCACHE_MAX_EXPIRATION
                         world_after_first_get eq_refl eq_refl))).
Defined.

(** After [delete], the next [get] for the same arguments takes the miss
    branch: with [fetch_on_miss] set it calls [fetch] again, stores the new
    value as a fresh entry and, no keyword being named [fetched] or
    [async], returns it. *)
Theorem delete_then_get_misses job env env' args kwargs k e s d ttl v w :
  key job args kwargs = Ok k ->
  store w !! k = Some (PTuple [PInt e; s; d], ttl) ->
  fetch_on_miss job = true ->
  fetch job args kwargs = Ok v ->
  clash ["fetched"; "async"] kwargs = None ->
  let w1 := snd (delete job env args kwargs w) in
  fst (get job env' args kwargs w1) = Ok v /\
  trace (snd (get job env' args kwargs w1))
  = EFetch args kwargs :: ELog DEBUG MissSync :: trace w /\
  stored (snd (get job env' args kwargs w1)) k
  = Some (PTuple [PInt (now env' + lifetime job); PStr "FRESH"; v]).
Proof.
  intros Hk Hl Hm Hf Hc w1. subst w1.
  rewrite (delete_spec _ _ _ _ k e s d ttl) by assumption. cbn [snd].
  rewrite (get_miss_sync_spec _ _ _ _ k v)
    by (try assumption; cbn [store]; apply lookup_delete_eq).
  cbn [fst snd trace]. unfold stored, got_miss. cbn [store].
  rewrite lookup_insert_eq, bind_keywords_ok by exact Hc.
  repeat split; reflexivity.
Qed.

Lemma delete_then_get_misses_witness :
  fst (get scenario_job (at_time 10) [PStr "a"] []
         (snd (delete scenario_job (at_time 5) [PStr "a"] [] world_after_first_get)))
  = Ok V.
Proof.
  exact (proj1 (delete_then_get_misses scenario_job (at_time 5) (at_time 10)
                  [PStr "a"] [] key_a 600 (PStr "FRESH") V
                  MEMCACHE_MAX_EXPIRATION V world_after_first_get
                  eq_refl eq_refl eq_refl eq_refl eq_refl)).
Defined.

(** On a key without entry, [invalidate] and [delete] return and do
    nothing at all: no write, no log, no fetch, no submission. *)
Theorem invalidate_delete_missing_noop job env args kwargs k w :
  key job args kwargs = Ok k ->
  store w !! k = None ->
  invalidate job env args kwargs w = (Ok tt, w) /\
  delete job env args kwargs w = (Ok tt, w).
Proof.
  intros Hk Hl. unfold invalidate, delete, bind, lift, cache_get,
    prepare_args, prepare_kwargs.
  rewrite Hk, Hl. split; reflexivity.
Qed.

Lemma invalidate_delete_missing_noop_witness :
  invalidate scenario_job (at_time 0) [PStr "a"] [] empty_world = (Ok tt, empty_world).
Proof.
  exact (proj1 (invalidate_delete_missing_noop scenario_job (at_time 0)
                  [PStr "a"] [] key_a empty_world eq_refl eq_refl)).
Defined.

(** When the key cannot be built, [get], [invalidate] and [delete] raise the
    exception of [key] before they touch the cache: the world is left as it
    was. *)
Theorem key_failure_stops_operation job env args kwargs e w :
  key job args kwargs = Raise e ->
  get job env args kwargs w = (Raise e, w) /\
  invalidate job env args kwargs w = (Raise e, w) /\
  delete job env args kwargs w = (Raise e, w).
Proof.
  intros Hk. unfold get, invalidate, delete, bind, lift, prepare_args, prepare_kwargs.
  rewrite Hk. repeat split; reflexivity.
Qed.

Lemma key_failure_stops_operation_witness :
  get scenario_job (at_time 0) [unprintable] [] world_after_first_get
  = (Raise (RuntimeError key_error_message), world_after_first_get).
Proof.
  exact (proj1 (key_failure_stops_operation scenario_job (at_time 0)
                  [unprintable] [] (RuntimeError key_error_message)
                  world_after_first_get eq_refl)).
Defined.

(** When [fetch] raises on a miss with [fetch_on_miss] set, [get] raises
    that exception; [fetch] was called once, nothing was submitted and
    nothing was written: the store is as before, with no placeholder. *)
Theorem get_miss_fetch_failure job env args kwargs k e w :
  key job args kwargs = Ok k ->
  store w !! k = None ->
  fetch_on_miss job = true ->
  fetch job args kwargs = Raise e ->
  get job env args kwargs w
  = (Raise e, {| store := store w;
                 trace := EFetch args kwargs :: ELog DEBUG MissSync :: trace w |}).
Proof.
  intros Hk Hl Hm Hf.
  unfold get, bind, lift, cache_get, prepare_args, prepare_kwargs.
  rewrite Hk, Hl. cbn [is_none].
  unfold should_missing_item_be_fetched_synchronously. rewrite Hm.
  unfold emit, refresh, bind, emit, lift. rewrite Hf. reflexivity.
Qed.

Lemma get_miss_fetch_failure_witness :
  fst (get failing_job (at_time 0) [PStr "a"] [] empty_world)
  = Raise (OtherException "IOError" "down") /\
  store (snd (get failing_job (at_time 0) [PStr "a"] [] empty_world)) = ∅.
Proof.
  rewrite (get_miss_fetch_failure failing_job (at_time 0) [PStr "a"] [] key_a
             (OtherException "IOError" "down") empty_world
             eq_refl eq_refl eq_refl eq_refl).
  split; reflexivity.
Defined.

(* ===================================================================== *)
(** ** What an operation leaves alone *)
(* ===================================================================== *)

Lemma frames_ret {A} k (a : A) : frames k (ret a).
Proof. intros w k' _. reflexivity. Qed.

Lemma frames_raise {A} k (e : exn) : frames k (@raise A e).
Proof. intros w k' _. reflexivity. Qed.

Lemma frames_lift {A} k (r : result A) : frames k (lift r).
Proof. intros w k' _. reflexivity. Qed.

Lemma frames_emit k e : frames k (emit e).
Proof. intros w k' _. reflexivity. Qed.

Lemma frames_cache_get k k0 d : frames k (cache_get k0 d).
Proof. intros w k' _. reflexivity. Qed.

Lemma frames_cache_delete k : frames k (cache_delete k).
Proof.
  intros w k' Hne. cbn [cache_delete snd store]. apply lookup_delete_ne. congruence.
Qed.

Lemma frames_cache_set job env k e s d : frames k (cache_set job env k e s d).
Proof.
  intros w k' Hne. rewrite cache_set_spec. cbn [snd store].
  apply lookup_insert_ne. congruence.
Qed.

Lemma frames_bind {A B} k (m : M A) (f : A -> M B) :
  frames k m -> (forall a, frames k (f a)) -> frames k (bind m f).
Proof.
  intros Hm Hf w k' Hne. unfold bind. specialize (Hm w k' Hne).
  destruct (m w) as [[a|e] w']; cbn [snd] in *; [|exact Hm].
  rewrite (Hf a w' k' Hne). exact Hm.
Qed.

(** The key that [refresh] builds again is the key of the caller. *)
Lemma frames_bind_key {B} k (f : string -> M B) :
  frames k (f k) -> frames k (bind (lift (Ok k)) f).
Proof. intros Hf w k' Hne. exact (Hf w k' Hne). Qed.

Lemma frames_try_except {A} k (m : M A) (h : exn -> M A) :
  frames k m -> (forall e, frames k (h e)) -> frames k (try_except m h).
Proof.
  intros Hm Hh w k' Hne. unfold try_except. specialize (Hm w k' Hne).
  destruct (m w) as [[a|e] w']; cbn [snd] in *; [exact Hm|].
  rewrite (Hh e w' k' Hne). exact Hm.
Qed.

Create HintDb frames.
#[local] Hint Resolve frames_ret frames_raise frames_lift frames_emit
  frames_cache_get frames_cache_delete frames_cache_set : frames.

Ltac frames_step :=
  first [ solve [auto with frames]
        | apply frames_bind_key
        | apply frames_bind; [|intros ?]
        | apply frames_try_except; [|intros ?]
        | match goal with
          | |- frames _ (match ?x with _ => _ end) => destruct x
          end ].

Lemma frames_refresh job env args kwargs k :
  key job args kwargs = Ok k -> frames k (refresh job env args kwargs).
Proof. intros Hk. unfold refresh. rewrite Hk. repeat frames_step. Qed.

Lemma frames_async_refresh job env args kwargs k :
  key job args kwargs = Ok k -> frames k (async_refresh job env args kwargs).
Proof.
  intros Hk. unfold async_refresh, dispatch.
  repeat first [ apply (frames_refresh _ _ _ _ _ Hk) | frames_step ].
Qed.

(** [get], [refresh], [invalidate], [delete] and [async_refresh] read and
    write the cache under the key of their arguments only: the entry under
    every other key is after the call what it was before, whether the call
    returns or raises. *)
Theorem operations_touch_own_key_only job env args kwargs k :
  key job args kwargs = Ok k ->
  frames k (get job env args kwargs) /\
  frames k (refresh job env args kwargs) /\
  frames k (invalidate job env args kwargs) /\
  frames k (delete job env args kwargs) /\
  frames k (async_refresh job env args kwargs).
Proof.
  intros Hk.
  pose proof (frames_refresh job env args kwargs k Hk) as Hr.
  pose proof (frames_async_refresh job env args kwargs k Hk) as Ha.
  split; [|split; [exact Hr|split; [|split; [|exact Ha]]]].
  - unfold get, prepare_args, prepare_kwargs. rewrite Hk.
    repeat first [ exact Hr | exact Ha | frames_step ].
  - unfold invalidate, prepare_args, prepare_kwargs. rewrite Hk.
    repeat first [ exact Ha | frames_step ].
  - unfold delete, prepare_args, prepare_kwargs. rewrite Hk.
    repeat frames_step.
Qed.

(** A [get("b")] leaves the entry of ["a"] as the first [get] wrote it. *)
Lemma operations_touch_own_key_only_witness :
  store (snd (get scenario_job (at_time 700) [PStr "b"] [] world_after_first_get))
  !! key_a = store world_after_first_get !! key_a.
Proof.
  refine (proj1 (operations_touch_own_key_only scenario_job (at_time 700)
                   [PStr "b"] [] "app.jobs.Scenario:78eda4bf88e86fa6d02ecf7927018080" _)
                world_after_first_get key_a _);
    [vm_compute; reflexivity | vm_compute; discriminate].
Defined.

Lemma keeps_ret {A} (a : A) : keeps_keys (ret a).
Proof. intros w k' H. exact H. Qed.

Lemma keeps_raise {A} (e : exn) : keeps_keys (@raise A e).
Proof. intros w k' H. exact H. Qed.

Lemma keeps_lift {A} (r : result A) : keeps_keys (lift r).
Proof. intros w k' H. exact H. Qed.

Lemma keeps_emit e : keeps_keys (emit e).
Proof. intros w k' H. exact H. Qed.

Lemma keeps_cache_get k d : keeps_keys (cache_get k d).
Proof. intros w k' H. exact H. Qed.

Lemma keeps_cache_set job env k e s d : keeps_keys (cache_set job env k e s d).
Proof.
  intros w k' H. rewrite cache_set_spec. cbn [snd store].
  destruct (decide (k = k')) as [->|Hne].
  - rewrite lookup_insert_eq. eauto.
  - rewrite lookup_insert_ne by exact Hne. exact H.
Qed.

Lemma keeps_bind {A B} (m : M A) (f : A -> M B) :
  keeps_keys m -> (forall a, keeps_keys (f a)) -> keeps_keys (bind m f).
Proof.
  intros Hm Hf w k' H. unfold bind. specialize (Hm w k' H).
  destruct (m w) as [[a|e] w']; cbn [snd] in *; [apply Hf|]; exact Hm.
Qed.

Lemma keeps_try_except {A} (m : M A) (h : exn -> M A) :
  keeps_keys m -> (forall e, keeps_keys (h e)) -> keeps_keys (try_except m h).
Proof.
  intros Hm Hh w k' H. unfold try_except. specialize (Hm w k' H).
  destruct (m w) as [[a|e] w']; cbn [snd] in *; [|apply Hh]; exact Hm.
Qed.

Create HintDb keeps.
#[local] Hint Resolve keeps_ret keeps_raise keeps_lift keeps_emit
  keeps_cache_get keeps_cache_set : keeps.

Ltac keeps_step :=
  first [ solve [auto with keeps]
        | apply keeps_bind; [|intros ?]
        | apply keeps_try_except; [|intros ?]
        | match goal with
          | |- keeps_keys (match ?x with _ => _ end) => destruct x
          end ].

Lemma keeps_refresh job env args kwargs : keeps_keys (refresh job env args kwargs).
Proof. unfold refresh. repeat keeps_step. Qed.

Lemma keeps_async_refresh job env args kwargs :
  keeps_keys (async_refresh job env args kwargs).
Proof.
  unfold async_refresh, dispatch.
  repeat first [ apply keeps_refresh | keeps_step ].
Qed.

(** Only [delete] removes: after [get], [refresh], [invalidate] or
    [async_refresh], every key that held an entry still holds one, whether
    the call returns or raises. *)
Theorem only_delete_removes job env args kwargs :
  keeps_keys (get job env args kwargs) /\
  keeps_keys (refresh job env args kwargs) /\
  keeps_keys (invalidate job env args kwargs) /\
  keeps_keys (async_refresh job env args kwargs).
Proof.
  split; [|split; [apply keeps_refresh|split; [|apply keeps_async_refresh]]].
  - unfold get.
    repeat first [ apply keeps_refresh | apply keeps_async_refresh | keeps_step ].
  - unfold invalidate.
    repeat first [ apply keeps_async_refresh | keeps_step ].
Qed.

(* ===================================================================== *)
(** ** How much one call does *)
(* ===================================================================== *)

(** [async_refresh] calls [fetch] at most once. *)
Lemma async_refresh_fetches job env args kwargs w :
  (fetches w <= fetches (snd (async_refresh job env args kwargs w)) <= S (fetches w))%nat.
Proof.
  unfold async_refresh, try_except, dispatch, bind, emit, ret, raise.
  destruct (apply_async env _); cbn [fst snd]; [|unfold fetches; cbn; lia].
  match goal with |- context [refresh job env args kwargs ?w0] =>
    pose proof (refresh_counts job env args kwargs w0) as [Hf _];
    destruct (refresh job env args kwargs w0) as [[v|e'] w'] end;
    cbn [snd] in *; unfold fetches in *; cbn [trace count is_fetch] in *; lia.
Qed.

(** Case analysis on the calls of [refresh] and [async_refresh] in the
    goal, with what they add to the counts. *)
Ltac count_calls :=
  repeat match goal with
    | |- context [refresh ?j ?e ?a ?k ?w0] =>
        pose proof (refresh_counts j e a k w0) as [? ?];
        destruct (refresh j e a k w0) as [[?|?] ?]
    | |- context [async_refresh ?j ?e ?a ?k ?w0] =>
        pose proof (async_refresh_dispatches j e a k w0);
        pose proof (async_refresh_fetches j e a k w0);
        destruct (async_refresh j e a k w0) as [[?|?] ?]
    end;
  unfold ret, dispatches, fetches in *;
  cbn [fst snd trace count is_dispatch is_fetch] in *; lia.

(** One call of [get] or [invalidate] submits at most one task and calls
    [fetch] at most once, whatever its path and outcome; [delete] does
    neither. *)
Theorem one_call_at_most_one_refresh job env args kwargs :
  at_most_once (get job env args kwargs) /\
  at_most_once (invalidate job env args kwargs) /\
  (forall w, trace (snd (delete job env args kwargs w)) = trace w).
Proof.
  split; [|split].
  - intros w. unfold get, bind, lift, cache_get, prepare_args, prepare_kwargs.
    destruct (key job args kwargs) as [k|]; [|cbn; lia].
    destruct (is_none _).
    + destruct (should_missing_item_be_fetched_synchronously job); unfold emit;
        rewrite ?cache_set_spec; count_calls.
    + destruct (unpack3 _) as [[[ex d] st]|]; [|cbn; lia].
      destruct (time_minus _ _) as [delta|]; [|cbn; lia].
      destruct (delta >? 0); [|unfold emit; count_calls].
      destruct (should_stale_item_be_fetched_synchronously job delta kwargs)
        as [[]|]; [| |cbn; lia]; unfold emit;
        rewrite ?cache_set_spec; count_calls.
  - intros w. unfold invalidate, bind, lift, cache_get, prepare_args, prepare_kwargs.
    destruct (key job args kwargs) as [k|]; [|cbn; lia].
    destruct (negb _); [|cbn; lia].
    destruct (unpack2 _) as [[ex d]|]; [|cbn; lia].
    rewrite ?cache_set_spec; count_calls.
  - intros w. unfold delete, bind, lift, cache_get, prepare_args, prepare_kwargs.
    destruct (key job args kwargs) as [k|]; [|reflexivity].
    destruct (negb _); reflexivity.
Qed.

(** On a cache that holds complete entries only, with arguments for which
    the key can be built and [fetch] returns, and with no keyword named
    [fetched], [async], [status] or [delta], [get] returns a value: it
    raises on none of its paths, whatever the task queue answers. *)
Theorem get_returns job env args kwargs k v w :
  store_ok w ->
  key job args kwargs = Ok k ->
  fetch job args kwargs = Ok v ->
  hook_safe kwargs = true ->
  exists r, fst (get job env args kwargs w) = Ok r.
Proof.
  intros Hok Hk Hf Hs.
  destruct (store w !! k) as [[item ttl]|] eqn:Hl.
  - pose proof (Hok _ _ _ Hl) as He.
    destruct item as [| | | | |[|[] [|x [|y []]]]| |]; try discriminate He.
    destruct (Z_lt_le_dec z (now env)) as [Hlt|Hle].
    + destruct (should_stale_item_be_fetched_synchronously job (now env - z) kwargs)
        as [[]|e'] eqn:Hsync.
      * unfold get, bind, lift, cache_get, prepare_args, prepare_kwargs.
        rewrite Hk, Hl. cbn [is_none unpack3 py_iter time_minus].
        destruct (Z.gtb_spec (now env - z) 0); [|lia].
        rewrite Hsync. unfold emit.
        rewrite (refresh_spec _ _ _ _ k v) by assumption.
        rewrite got_stale_hook_safe by exact Hs. eexists; reflexivity.
      * destruct (get_stale_async_any job env args kwargs k z x y ttl w
                    Hk Hl Hlt Hsync) as [H1 _].
        rewrite H1, got_stale_hook_safe by exact Hs. eauto.
      * rewrite should_stale_bound in Hsync by (apply hook_safe_delta, Hs).
        discriminate Hsync.
    + rewrite (get_hit_spec _ _ _ _ k z x y ttl) by assumption.
      cbn [fst]. rewrite got_hit_hook_safe by exact Hs. eauto.
  - destruct (fetch_on_miss job) eqn:Hm.
    + rewrite (get_miss_sync_spec _ _ _ _ k v) by assumption.
      cbn [fst]. rewrite got_miss_hook_safe by exact Hs. eauto.
    + destruct (get_miss_async_any job env args kwargs k w Hk Hl Hm) as [H1 _].
      rewrite H1, got_miss_hook_safe by exact Hs. eauto.
Qed.

Lemma get_returns_witness :
  exists r, fst (get scenario_job (broker_down 700) [PStr "a"] []
                   world_after_first_get) = Ok r.
Proof.
  refine (get_returns scenario_job (broker_down 700) [PStr "a"] [] key_a V
            world_after_first_get _ eq_refl eq_refl eq_refl).
  exact (preserves_get _ _ _ _ _ store_ok_empty).
Defined.

(* ===================================================================== *)
(** ** Two calls in a row *)
(* ===================================================================== *)

(** An expired entry and a [get] that chooses the synchronous refresh. *)
Lemma get_stale_sync_spec job env args kwargs k e x y ttl v w :
  key job args kwargs = Ok k ->
  store w !! k = Some (PTuple [PInt e; x; y], ttl) ->
  e < now env ->
  should_stale_item_be_fetched_synchronously job (now env - e) kwargs = Ok true ->
  fetch job args kwargs = Ok v ->
  get job env args kwargs w
  = (got_stale v false args kwargs,
     {| store := <[k := (PTuple [PInt (now env + lifetime job); PStr "FRESH"; v],
                         cache_ttl job)]> (store w);
        trace := EFetch args kwargs :: ELog DEBUG StaleSync :: trace w |}).
Proof.
  intros Hk Hl He Hs Hf.
  unfold get, bind, lift, cache_get, prepare_args, prepare_kwargs.
  rewrite Hk, Hl. cbn [is_none unpack3 py_iter time_minus].
  destruct (Z.gtb_spec (now env - e) 0); [|lia].
  rewrite Hs. unfold emit.
  rewrite (refresh_spec _ _ _ _ k v) by assumption. reflexivity.
Qed.

(** The refresh of an expired entry is not submitted twice.  After a [get]
    that queued it, every [get] for the same arguments up to
    [refresh_timeout] seconds later, while the backend still holds the
    entry (less than [cache_ttl] seconds later), is a hit that submits
    nothing, fetches nothing, writes nothing and returns what the first
    [get] returned.  The keywords are not named [fetched], [async],
    [status] or [delta]. *)
Theorem queued_refresh_not_repeated job env env' args kwargs k e x y ttl w :
  key job args kwargs = Ok k ->
  store w !! k = Some (PTuple [PInt e; x; y], ttl) ->
  e < now env ->
  fetch_on_stale_threshold job = None ->
  apply_async env (refresh_task job args kwargs) = None ->
  hook_safe kwargs = true ->
  now env' <= now env + refresh_timeout job ->
  now env' < now env + cache_ttl job ->
  let w1 := snd (get job env args kwargs w) in
  fst (get job env args kwargs w) = Ok x /\
  fst (get job env' args kwargs w1) = Ok x /\
  dispatches (snd (get job env' args kwargs w1)) = S (dispatches w) /\
  fetches (snd (get job env' args kwargs w1)) = fetches w /\
  store (snd (get job env' args kwargs w1)) = store w1.
Proof.
  intros Hk Hl He Ht Ha Hs Hn _ w1. subst w1.
  rewrite (get_stale_async_spec job env args kwargs k e x y ttl w)
    by (try assumption; apply hook_safe_delta, Hs).
  cbn [fst snd].
  rewrite (get_hit_spec _ _ _ _ k (now env + refresh_timeout job) x (PStr "QUEUED")
             (cache_ttl job))
    by (try assumption; cbn [store]; apply lookup_insert_eq).
  rewrite got_stale_hook_safe, got_hit_hook_safe by exact Hs.
  repeat split; reflexivity.
Qed.

Lemma queued_refresh_not_repeated_witness :
  dispatches (snd (get scenario_job (at_time 760) [PStr "a"] []
                     (snd (get scenario_job (at_time 700) [PStr "a"] []
                             world_after_first_get))))
  = S (dispatches world_after_first_get).
Proof.
  refine (proj1 (proj2 (proj2 (queued_refresh_not_repeated scenario_job
                          (at_time 700) (at_time 760) [PStr "a"] [] key_a 600
                          (PStr "FRESH") V MEMCACHE_MAX_EXPIRATION
                          world_after_first_get
                          eq_refl eq_refl _ eq_refl eq_refl eq_refl _ _))));
    cbn; unfold MEMCACHE_MAX_EXPIRATION; lia.
Defined.

(** The placeholder is not queued twice either.  After a miss without
    [fetch_on_miss], every [get] for the same arguments up to
    [refresh_timeout] seconds later, while the backend still holds the
    entry, returns the value of [empty()] again and submits nothing, fetches
    nothing and writes nothing.  The keywords are not named [fetched],
    [async], [status] or [delta]. *)
Theorem placeholder_not_repeated job env env' args kwargs k w :
  key job args kwargs = Ok k ->
  store w !! k = None ->
  fetch_on_miss job = false ->
  apply_async env (refresh_task job args kwargs) = None ->
  hook_safe kwargs = true ->
  now env' <= now env + refresh_timeout job ->
  now env' < now env + cache_ttl job ->
  let w1 := snd (get job env args kwargs w) in
  fst (get job env' args kwargs w1) = Ok (empty job) /\
  dispatches (snd (get job env' args kwargs w1)) = S (dispatches w) /\
  fetches (snd (get job env' args kwargs w1)) = fetches w /\
  store (snd (get job env' args kwargs w1)) = store w1.
Proof.
  intros Hk Hl Hm Ha Hs Hn _ w1. subst w1.
  rewrite (get_miss_async_spec job env args kwargs k w) by assumption.
  cbn [fst snd].
  rewrite (get_hit_spec _ _ _ _ k (now env + refresh_timeout job) (empty job)
             (PStr "QUEUED") (cache_ttl job))
    by (try assumption; cbn [store]; apply lookup_insert_eq).
  rewrite got_hit_hook_safe by exact Hs.
  repeat split; reflexivity.
Qed.

Lemma placeholder_not_repeated_witness :
  fst (get placeholder_job (at_time 60) [PStr "a"] []
         (snd (get placeholder_job (at_time 0) [PStr "a"] [] empty_world)))
  = Ok PNone.
Proof.
  refine (proj1 (placeholder_not_repeated placeholder_job (at_time 0) (at_time 60)
                   [PStr "a"] [] key_a empty_world
                   eq_refl eq_refl eq_refl eq_refl eq_refl _ _));
    cbn; unfold MEMCACHE_MAX_EXPIRATION; lia.
Defined.

(** When the window has passed and the backend still holds the queued
    entry, the next [get] submits the refresh again.  The keywords are not
    named [fetched], [async], [status] or [delta]. *)
Theorem queued_refresh_repeated_after_timeout job env env' args kwargs k w :
  key job args kwargs = Ok k ->
  store w !! k = None ->
  fetch_on_miss job = false ->
  fetch_on_stale_threshold job = None ->
  apply_async env (refresh_task job args kwargs) = None ->
  apply_async env' (refresh_task job args kwargs) = None ->
  hook_safe kwargs = true ->
  now env + refresh_timeout job < now env' ->
  now env' < now env + cache_ttl job ->
  let w1 := snd (get job env args kwargs w) in
  fst (get job env' args kwargs w1) = Ok (empty job) /\
  dispatches (snd (get job env' args kwargs w1)) = S (S (dispatches w)) /\
  fetches (snd (get job env' args kwargs w1)) = fetches w /\
  stored (snd (get job env' args kwargs w1)) k
  = Some (PTuple [PInt (now env' + refresh_timeout job); empty job; PStr "QUEUED"]).
Proof.
  intros Hk Hl Hm Ht Ha Ha' Hs Hn _ w1. subst w1.
  rewrite (get_miss_async_spec job env args kwargs k w) by assumption.
  cbn [fst snd].
  rewrite (get_stale_async_spec _ _ _ _ k (now env + refresh_timeout job) (empty job)
             (PStr "QUEUED") (cache_ttl job))
    by (try assumption; try (apply hook_safe_delta, Hs);
        cbn [store]; apply lookup_insert_eq).
  unfold stored. cbn [fst snd store]. rewrite lookup_insert_eq.
  rewrite got_stale_hook_safe by exact Hs.
  repeat split; reflexivity.
Qed.

Lemma queued_refresh_repeated_after_timeout_witness :
  dispatches (snd (get placeholder_job (at_time 61) [PStr "a"] []
                     (snd (get placeholder_job (at_time 0) [PStr "a"] [] empty_world))))
  = 2%nat.
Proof.
  refine (proj1 (proj2 (queued_refresh_repeated_after_timeout placeholder_job
                          (at_time 0) (at_time 61) [PStr "a"] [] key_a empty_world
                          eq_refl eq_refl eq_refl eq_refl eq_refl eq_refl eq_refl
                          _ _)));
    cbn; unfold MEMCACHE_MAX_EXPIRATION; lia.
Defined.

(** Within the lifetime of an entry that a synchronous miss wrote, and while
    the backend still holds it, a [get] for the same arguments calls neither
    [fetch] nor the task queue and leaves the store as it is; it returns the
    second item of the stored tuple [(expiry, 'FRESH', value)], the string
    ['FRESH'].  The keywords are not named [fetched], [async], [status] or
    [delta]. *)
Theorem get_within_lifetime_no_refetch job env env' args kwargs k v w :
  key job args kwargs = Ok k ->
  store w !! k = None ->
  fetch_on_miss job = true ->
  fetch job args kwargs = Ok v ->
  hook_safe kwargs = true ->
  now env' <= now env + lifetime job ->
  now env' < now env + cache_ttl job ->
  let w1 := snd (get job env args kwargs w) in
  fst (get job env' args kwargs w1) = Ok (PStr "FRESH") /\
  fetches (snd (get job env' args kwargs w1)) = S (fetches w) /\
  dispatches (snd (get job env' args kwargs w1)) = dispatches w /\
  store (snd (get job env' args kwargs w1)) = store w1.
Proof.
  intros Hk Hl Hm Hf Hs Hn _ w1. subst w1.
  rewrite (get_miss_sync_spec job env args kwargs k v w) by assumption.
  cbn [fst snd].
  rewrite (get_hit_spec _ _ _ _ k (now env + lifetime job) (PStr "FRESH") v
             (cache_ttl job))
    by (try assumption; cbn [store]; apply lookup_insert_eq).
  rewrite got_hit_hook_safe by exact Hs.
  repeat split; reflexivity.
Qed.

Lemma get_within_lifetime_no_refetch_witness :
  fetches (snd (get scenario_job (at_time 600) [PStr "a"] []
                  (snd (get scenario_job (at_time 0) [PStr "a"] [] empty_world))))
  = 1%nat.
Proof.
  refine (proj1 (proj2 (get_within_lifetime_no_refetch scenario_job (at_time 0)
                          (at_time 600) [PStr "a"] [] key_a V empty_world
                          eq_refl eq_refl eq_refl eq_refl eq_refl _ _)));
    cbn; unfold MEMCACHE_MAX_EXPIRATION; lia.
Defined.

(* ===================================================================== *)
(** ** The stale threshold *)
(* ===================================================================== *)

(** With a stale threshold, an expired entry whose staleness [now - expiry]
    exceeds [threshold - lifetime] is refreshed by the caller itself: [get]
    calls [fetch], returns the new value, stores it as a fresh entry and
    submits nothing.  The keywords are not named [fetched], [async],
    [status] or [delta]. *)
Theorem stale_beyond_threshold_refetched job env args kwargs k e x y ttl th v w :
  key job args kwargs = Ok k ->
  store w !! k = Some (PTuple [PInt e; x; y], ttl) ->
  fetch_on_stale_threshold job = Some th ->
  e < now env ->
  th - lifetime job < now env - e ->
  fetch job args kwargs = Ok v ->
  hook_safe kwargs = true ->
  fst (get job env args kwargs w) = Ok v /\
  stored (snd (get job env args kwargs w)) k
  = Some (PTuple [PInt (now env + lifetime job); PStr "FRESH"; v]) /\
  fetches (snd (get job env args kwargs w)) = S (fetches w) /\
  dispatches (snd (get job env args kwargs w)) = dispatches w.
Proof.
  intros Hk Hl Ht He Hd Hf Hs.
  rewrite (get_stale_sync_spec job env args kwargs k e x y ttl v w); try assumption.
  - unfold stored. cbn [fst snd store]. rewrite lookup_insert_eq.
    rewrite got_stale_hook_safe by exact Hs. repeat split; reflexivity.
  - rewrite should_stale_bound by (apply hook_safe_delta, Hs). rewrite Ht.
    destruct (Z.gtb_spec (now env - e) (th - lifetime job)); [reflexivity|lia].
Qed.

(** The entry of the scenario (expiry 600) read at time 1000 with a
    threshold of 900: staleness 400 exceeds 900 - 600. *)
Lemma stale_beyond_threshold_refetched_witness :
  fst (get threshold_job (at_time 1000) [PStr "a"] [] world_after_first_get)
  = Ok (PStr "W").
Proof.
  refine (proj1 (stale_beyond_threshold_refetched threshold_job (at_time 1000)
                   [PStr "a"] [] key_a 600 (PStr "FRESH") V MEMCACHE_MAX_EXPIRATION
                   900 (PStr "W") world_after_first_get
                   eq_refl eq_refl eq_refl _ _ eq_refl eq_refl));
    cbn; unfold MEMCACHE_MAX_EXPIRATION; lia.
Defined.

(** The threshold counts from the write.  For an entry that [refresh] wrote
    at time [t0] and that the backend still holds when it is read at time
    [t] (its age is below [cache_ttl]), with threshold [th]: up to the age
    [lifetime] the read is a hit; from there up to the age [th] the refresh
    is queued; beyond [th] the caller fetches itself.  The keywords are not
    named [fetched], [async], [status] or [delta]. *)
Theorem threshold_is_age_since_refresh job env0 env args kwargs k v th w :
  key job args kwargs = Ok k ->
  fetch job args kwargs = Ok v ->
  fetch_on_stale_threshold job = Some th ->
  hook_safe kwargs = true ->
  now env - now env0 < cache_ttl job ->
  let w1 := snd (refresh job env0 args kwargs w) in
  let age := now env - now env0 in
  (age <= lifetime job ->
   fst (get job env args kwargs w1) = Ok (PStr "FRESH") /\
   fetches (snd (get job env args kwargs w1)) = fetches w1 /\
   dispatches (snd (get job env args kwargs w1)) = dispatches w1) /\
  (lifetime job < age -> age <= th ->
   fst (get job (accepting env) args kwargs w1) = Ok (PStr "FRESH") /\
   fetches (snd (get job (accepting env) args kwargs w1)) = fetches w1 /\
   dispatches (snd (get job (accepting env) args kwargs w1)) = S (dispatches w1)) /\
  (lifetime job < age -> th < age ->
   fst (get job env args kwargs w1) = Ok v /\
   fetches (snd (get job env args kwargs w1)) = S (fetches w1) /\
   dispatches (snd (get job env args kwargs w1)) = dispatches w1).
Proof.
  intros Hk Hf Ht Hs _ w1 age. subst w1 age.
  pose proof (hook_safe_delta kwargs Hs) as Hc.
  rewrite (refresh_spec job env0 args kwargs k v w) by assumption. cbn [snd].
  match goal with |- context [get job env args kwargs ?w0] => set (w1 := w0) end.
  assert (Hl : store w1 !! k
               = Some (PTuple [PInt (now env0 + lifetime job); PStr "FRESH"; v],
                       cache_ttl job))
    by (subst w1; cbn [store]; apply lookup_insert_eq).
  split; [|split].
  - intros Ha.
    rewrite (get_hit_spec job env args kwargs k _ _ _ _ w1 Hk Hl) by lia.
    rewrite got_hit_hook_safe by exact Hs. repeat split; reflexivity.
  - intros Ha Hb.
    destruct (get_stale_async_any job (accepting env) args kwargs k _ _ _ _ w1 Hk Hl)
      as [H1 H2].
    + cbn [accepting now]. lia.
    + rewrite should_stale_bound by exact Hc. rewrite Ht. cbn [accepting now].
      destruct (Z.gtb_spec (now env - (now env0 + lifetime job)) (th - lifetime job));
        [lia|reflexivity].
    + rewrite H1, H2, async_refresh_accepted by reflexivity.
      rewrite got_stale_hook_safe by exact Hs. repeat split; reflexivity.
  - intros Ha Hb.
    rewrite (get_stale_sync_spec job env args kwargs k _ _ _ _ v w1 Hk Hl).
    + rewrite got_stale_hook_safe by exact Hs. repeat split; reflexivity.
    + lia.
    + rewrite should_stale_bound by exact Hc. rewrite Ht.
      destruct (Z.gtb_spec (now env - (now env0 + lifetime job)) (th - lifetime job));
        [reflexivity|lia].
    + exact Hf.
Qed.

(** Written at 0 with lifetime 600 and threshold 900: the read at 901 is
    done by a synchronous fetch. *)
Lemma threshold_is_age_since_refresh_witness :
  fst (get threshold_job (at_time 901) [PStr "a"] []
         (snd (refresh threshold_job (at_time 0) [PStr "a"] [] empty_world)))
  = Ok (PStr "W").
Proof.
  refine (proj1 (proj2 (proj2 (threshold_is_age_since_refresh threshold_job
                                 (at_time 0) (at_time 901) [PStr "a"] [] key_a
                                 (PStr "W") 900 empty_world
                                 eq_refl eq_refl eq_refl eq_refl _)) _ _));
    cbn; unfold MEMCACHE_MAX_EXPIRATION; lia.
Defined.

(* ===================================================================== *)
(** ** The failover of the dispatch adapter *)
(* ===================================================================== *)

(** When the submission raises and the synchronous refresh succeeds,
    [async_refresh] has put the fresh entry in the cache: it returns the
    fetched value and the key holds [(now + lifetime, 'FRESH', value)]. *)
Theorem failover_refresh_populates job env args kwargs k e v w :
  apply_async env (refresh_task job args kwargs) = Some e ->
  key job args kwargs = Ok k ->
  fetch job args kwargs = Ok v ->
  async_refresh job env args kwargs w
  = (Ok v,
     {| store := <[k := (PTuple [PInt (now env + lifetime job); PStr "FRESH"; v],
                         cache_ttl job)]> (store w);
        trace := EFetch args kwargs :: ELog ERROR DispatchFailed
                 :: EDispatch (refresh_task job args kwargs) :: trace w |}).
Proof.
  intros Ha Hk Hf.
  unfold async_refresh, try_except, dispatch, bind, emit, ret, raise.
  rewrite Ha. rewrite (refresh_spec _ _ _ _ k v) by assumption. reflexivity.
Qed.

Lemma failover_refresh_populates_witness :
  stored (snd (async_refresh scenario_job (broker_down 0) [PStr "a"] [] empty_world))
         key_a
  = Some (PTuple [PInt 600; PStr "FRESH"; V]).
Proof.
  rewrite (failover_refresh_populates scenario_job (broker_down 0) [PStr "a"] []
             key_a (OtherException "ConnectionError" "refused") V empty_world
             eq_refl eq_refl eq_refl).
  vm_compute. reflexivity.
Defined.

(** When the submission raises and [fetch] raises too, [async_refresh]
    returns [None] with the cache untouched; both failures are logged as
    errors, the second with the exception of [fetch]. *)
Theorem failover_refresh_failure_logged job env args kwargs e e' w :
  apply_async env (refresh_task job args kwargs) = Some e ->
  fetch job args kwargs = Raise e' ->
  async_refresh job env args kwargs w
  = (Ok PNone,
     {| store := store w;
        trace := ELog ERROR (SyncRefreshFailed e') :: EFetch args kwargs
                 :: ELog ERROR DispatchFailed
                 :: EDispatch (refresh_task job args kwargs) :: trace w |}).
Proof.
  intros Ha Hf.
  unfold async_refresh, try_except, dispatch, bind, emit, ret, raise,
    refresh, bind, emit, lift.
  rewrite Ha, Hf. reflexivity.
Qed.

Lemma failover_refresh_failure_logged_witness :
  fst (async_refresh failing_job (broker_down 0) [PStr "a"] [] empty_world) = Ok PNone.
Proof.
  rewrite (failover_refresh_failure_logged failing_job (broker_down 0) [PStr "a"] []
             (OtherException "ConnectionError" "refused")
             (OtherException "IOError" "down") empty_world eq_refl eq_refl).
  reflexivity.
Defined.

(* ===================================================================== *)
(** ** The shape of the key *)
(* ===================================================================== *)

Lemma string_length_append (a b : string) :
  String.length (a +:+ b) = (String.length a + String.length b)%nat.
Proof.
  induction a as [|c a IH]; [reflexivity|].
  change (S (String.length (a +:+ b)) = S (String.length a + String.length b)).
  rewrite IH. reflexivity.
Qed.

Lemma le_bytes_length n x : List.length (MD5.le_bytes n x) = n.
Proof. revert x. induction n as [|n IH]; intros x; cbn; [reflexivity|rewrite IH; reflexivity]. Qed.

Lemma hex_length bs : String.length (MD5.hex bs) = (2 * List.length bs)%nat.
Proof. induction bs as [|b bs IH]; cbn [MD5.hex String.length List.length]; lia. Qed.

(** A digest has sixteen bytes, its hexadecimal form thirty-two
    characters. *)
Lemma hexdigest_length b : String.length (MD5.hexdigest b) = 32%nat.
Proof.
  unfold MD5.hexdigest, MD5.digest. rewrite hex_length.
  destruct (fold_left _ _ _) as [a0 b0 c0 d0].
  rewrite !length_app, !le_bytes_length. reflexivity.
Qed.

Lemma hash_length v h : hash v = Ok h -> String.length h = 32%nat.
Proof.
  unfold hash. destruct (to_bytestring v) as [b|]; [|discriminate].
  intros H. assert (h = MD5.hexdigest b) as -> by congruence.
  exact (hexdigest_length b).
Qed.

(** The length of a key does not depend on the size of the arguments: it
    is the class path alone for a call without arguments, the class path
    and 33 characters for positional arguments only, and the class path
    and 99 characters when there are keyword arguments. *)
Theorem key_length job args kwargs k :
  key job args kwargs = Ok k ->
  String.length k
  = (String.length (class_path job)
     + if is_empty kwargs then (if is_empty args then 0 else 33) else 99)%nat.
Proof.
  assert (Hone : forall v h,
             hash v = Ok h ->
             String.length (class_path job +:+ ":" +:+ h)
             = (String.length (class_path job) + 33)%nat).
  { intros v h Hh. rewrite !string_length_append, (hash_length _ _ Hh).
    cbn [String.length]. lia. }
  assert (Hthree : forall v1 v2 v3 h1 h2 h3,
             hash v1 = Ok h1 -> hash v2 = Ok h2 -> hash v3 = Ok h3 ->
             String.length (class_path job +:+ ":" +:+ h1 +:+ ":" +:+ h2 +:+ ":" +:+ h3)
             = (String.length (class_path job) + 99)%nat).
  { intros v1 v2 v3 h1 h2 h3 H1 H2 H3. rewrite !string_length_append.
    rewrite (hash_length _ _ H1), (hash_length _ _ H2), (hash_length _ _ H3).
    cbn [String.length]. lia. }
  unfold key, key_body. intros H.
  destruct args as [|a args], kwargs as [|kv kwargs];
    cbn [is_empty negb andb] in H |- *.
  - injection H as <-. lia.
  - destruct (hash (PTuple [])) as [ha|e1] eqn:Ha; [|destruct e1; discriminate H].
    destruct (hash (PTuple (map _ _))) as [hk|e2] eqn:Hk; [|destruct e2; discriminate H].
    destruct (hash (PTuple (map snd _))) as [hv|e3] eqn:Hv; [|destruct e3; discriminate H].
    injection H as <-. exact (Hthree _ _ _ _ _ _ Ha Hk Hv).
  - destruct (hash (PTuple (a :: args))) as [ha|e1] eqn:Ha; [|destruct e1; discriminate H].
    injection H as <-. exact (Hone _ _ Ha).
  - destruct (hash (PTuple (a :: args))) as [ha|e1] eqn:Ha; [|destruct e1; discriminate H].
    destruct (hash (PTuple (map _ _))) as [hk|e2] eqn:Hk; [|destruct e2; discriminate H].
    destruct (hash (PTuple (map snd _))) as [hv|e3] eqn:Hv; [|destruct e3; discriminate H].
    injection H as <-. exact (Hthree _ _ _ _ _ _ Ha Hk Hv).
Qed.

Lemma key_length_witness :
  String.length key_a = (String.length "app.jobs.Scenario" + 33)%nat.
Proof.
  exact (key_length scenario_job [PStr "a"] [] key_a eq_refl).
Defined.

(** An induction principle for values that reaches the items of tuples
    and lists. *)
Lemma pyval_nested_ind (P : pyval -> Prop) :
  P PNone -> (forall b, P (PBool b)) -> (forall z, P (PInt z)) ->
  (forall s, P (PStr s)) -> (forall b, P (PBytes b)) ->
  (forall l, Forall P l -> P (PTuple l)) ->
  (forall l, Forall P l -> P (PList l)) ->
  (forall cls r, P (PObj cls r)) ->
  forall v, P v.
Proof.
  intros HN HB HI HS HY HT HL HO. fix IH 1. intros [| b | z | s | b | l | l | cls r].
  - exact HN.
  - apply HB.
  - apply HI.
  - apply HS.
  - apply HY.
  - apply HT. induction l as [|x l IHl]; constructor; [apply IH|exact IHl].
  - apply HL. induction l as [|x l IHl]; constructor; [apply IH|exact IHl].
  - apply HO.
Qed.

Lemma map_result_plain (l : list pyval) :
  Forall (fun v => plain v = true -> exists s, py_repr v = Ok s) l ->
  forallb plain l = true ->
  exists ss, map_result py_repr l = Ok ss.
Proof.
  induction 1 as [|x l Hx _ IH]; cbn [forallb map_result]; [eauto|].
  intros [Hp Hl]%andb_prop. destruct (Hx Hp) as [s ->].
  destruct (IH Hl) as [ss ->]. eauto.
Qed.

(** Every value built without user classes prints. *)
Lemma py_repr_plain v : plain v = true -> exists s, py_repr v = Ok s.
Proof.
  induction v as [| [] | z | s | b | l IH | l IH | cls r] using pyval_nested_ind;
    cbn [plain py_repr]; intros Hp; eauto; try discriminate.
  - destruct (map_result_plain l IH Hp) as [ss ->].
    destruct ss as [|s [|s' ss]]; eauto.
  - destruct (map_result_plain l IH Hp) as [ss ->]. eauto.
Qed.

Lemma hash_plain_tuple l :
  forallb plain l = true -> exists h, hash (PTuple l) = Ok h.
Proof.
  intros Hp. rewrite hash_tuple.
  destruct (py_repr_plain (PTuple l) Hp) as [s ->]. eauto.
Qed.

Lemma flat_plain v : flat v = true -> plain v = true.
Proof.
  assert (Hl : forall l,
             forallb (fun x => match x with
                               | PTuple _ | PList _ | PObj _ _ => false
                               | _ => true
                               end) l = true ->
             forallb plain l = true).
  { induction l as [|x l IH]; cbn [forallb]; [reflexivity|].
    intros [Hx Hr]%andb_prop. rewrite (IH Hr). destruct x; try discriminate Hx; reflexivity. }
  destruct v; cbn [flat plain]; auto.
Qed.

Lemma forallb_flat_plain l : forallb flat l = true -> forallb plain l = true.
Proof.
  induction l as [|x l IH]; cbn [forallb]; [reflexivity|].
  intros [Hx Hr]%andb_prop. rewrite (flat_plain x Hx), (IH Hr). reflexivity.
Qed.

(** For arguments of the primitive types (None, booleans, integers, text,
    bytes) and tuples and lists of such values, [key] never raises: it
    returns a key, also for text arguments, although [to_bytestring] raises
    on a text value handed to it directly. *)
Theorem key_returns_on_flat_values job args kwargs :
  forallb flat args = true ->
  forallb flat (map snd kwargs) = true ->
  (exists k, key job args kwargs = Ok k) /\
  (forall s, to_bytestring (PStr s) = Raise (NameError "name 'string' is not defined")).
Proof.
  intros Ha Hv. split; [|reflexivity].
  unfold key, key_body.
  destruct (hash_plain_tuple args (forallb_flat_plain _ Ha)) as [ha ->].
  destruct (hash_plain_tuple (map snd kwargs) (forallb_flat_plain _ Hv)) as [hv ->].
  destruct (hash_keyword_names kwargs) as [hk ->].
  destruct (is_empty args && is_empty kwargs); [eauto|].
  destruct (negb (is_empty args) && is_empty kwargs); eauto.
Qed.

Lemma key_returns_on_flat_values_witness :
  exists k,
    key scenario_job [PStr "a"; PList [PInt 1; PNone; PBytes "x"]]
        [("flag", PBool true)] = Ok k.
Proof.
  exact (proj1 (key_returns_on_flat_values scenario_job
                  [PStr "a"; PList [PInt 1; PNone; PBytes "x"]]
                  [("flag", PBool true)] eq_refl eq_refl)).
Defined.

(* ===================================================================== *)
(** ** Entries of two items *)
(* ===================================================================== *)

(** On an entry of two items [(expiry, data)], the layout that the comment
    of the class describes, [get] raises [ValueError] and changes nothing,
    whereas [invalidate] succeeds: it rewrites the entry as the three items
    [(now + refresh_timeout, data, 'QUEUED')] and makes one submission. *)
Theorem two_item_entry job env args kwargs k e d ttl w :
  key job args kwargs = Ok k ->
  store w !! k = Some (PTuple [e; d], ttl) ->
  get job env args kwargs w
  = (Raise (ValueError "not enough values to unpack (expected 3, got 2)"), w) /\
  stored (snd (invalidate job (accepting env) args kwargs w)) k
  = Some (PTuple [PInt (now env + refresh_timeout job); d; PStr "QUEUED"]) /\
  fst (invalidate job (accepting env) args kwargs w) = Ok tt /\
  dispatches (snd (invalidate job (accepting env) args kwargs w)) = S (dispatches w).
Proof.
  intros Hk Hl. split.
  - unfold get, bind, lift, cache_get, prepare_args, prepare_kwargs.
    rewrite Hk, Hl. reflexivity.
  - unfold invalidate, bind, lift, cache_get, prepare_args, prepare_kwargs.
    rewrite Hk, Hl. cbn [is_none negb unpack2 py_iter].
    rewrite cache_set_spec, async_refresh_accepted by reflexivity.
    unfold stored, ret. cbn [fst snd store]. rewrite lookup_insert_eq.
    repeat split; reflexivity.
Qed.

Lemma two_item_entry_witness :
  let w := {| store := {[ key_a := (PTuple [PInt 600; V], MEMCACHE_MAX_EXPIRATION) ]};
              trace := [] |} in
  fst (get scenario_job (at_time 0) [PStr "a"] [] w)
  = Raise (ValueError "not enough values to unpack (expected 3, got 2)").
Proof.
  intros w.
  rewrite (proj1 (two_item_entry scenario_job (at_time 0) [PStr "a"] [] key_a
                    (PInt 600) V MEMCACHE_MAX_EXPIRATION w eq_refl eq_refl)).
  reflexivity.
Defined.

(* ===================================================================== *)
(** ** A refresh that fails *)
(* ===================================================================== *)

(** [refresh] calls [fetch] before it builds the key and writes only at the
    end: when [fetch] raises, or when the key cannot be built after [fetch]
    has returned, the call raises that exception with [fetch] called once
    and the cache as before, so that an entry already stored stays in
    place. *)
Theorem refresh_failure_keeps_entry job env args kwargs w :
  (forall e, fetch job args kwargs = Raise e ->
     refresh job env args kwargs w
     = (Raise e, {| store := store w; trace := EFetch args kwargs :: trace w |})) /\
  (forall v e, fetch job args kwargs = Ok v -> key job args kwargs = Raise e ->
     refresh job env args kwargs w
     = (Raise e, {| store := store w; trace := EFetch args kwargs :: trace w |})).
Proof.
  split.
  - intros e Hf. unfold refresh, bind, emit, lift. rewrite Hf. reflexivity.
  - intros v e Hf Hk. unfold refresh, bind, emit, lift. rewrite Hf, Hk. reflexivity.
Qed.

(** The worker's refresh of the scenario entry with a [fetch] that raises:
    the entry [(600, 'FRESH', V)] is still there. *)
Example refresh_failure_on_scenario :
  stored (snd (refresh failing_job (at_time 700) [PStr "a"] [] world_after_first_get))
         key_a
  = Some (PTuple [PInt 600; PStr "FRESH"; V]) /\
  fst (refresh scenario_job (at_time 0) [unprintable] [] empty_world)
  = Raise (RuntimeError key_error_message) /\
  fetches (snd (refresh scenario_job (at_time 0) [unprintable] [] empty_world)) = 1%nat.
Proof. vm_compute. repeat split; reflexivity. Qed.
